(** * create_token.py: the EDL bearer-token Lambda

    A shallow embedding of [src/create_token.py] and the properties of its
    control flow: which requests the handler sends to Earthdata Login (EDL),
    what it writes to the SSM Parameter Store, and how it ends.

    The program is a straight-line script over external services.  Every call
    to a service is recorded, in order, in a trace; the services' answers come
    from a [world], which may answer a call differently depending on the calls
    made before it (a second POST to the token endpoint succeeds because
    tokens were revoked in between).  Python exceptions, [sys.exit] included,
    are outcomes of a computation, and the trace survives them.  The logger
    only writes to the console; its calls are left out. *)

From Stdlib Require Import String Ascii List ZArith Bool Lia.
From Stdlib Require Import Floats.SpecFloat.
Import ListNotations.
Local Open Scope list_scope.
Local Open Scope string_scope.

(** ** Python values *)

(** What [json.loads] returns: [None], [bool], [int], [float], [str], [list]
    and [dict].  A [dict] is kept as an association list read from the left
    (the first binding of a key is the dict's value for it).  Python's [False]
    is [JBool false]. *)
#[warnings="-register-all"]
Inductive json : Type :=
| JNull
| JBool (b : bool)
| JInt (n : Z)
| JFloat (f : spec_float)
| JStr (s : string)
| JArr (l : list json)
| JObj (o : list (string * json)).

(** The exceptions the program can meet.  [SystemExit] is what [sys.exit]
    raises; [ClientError] is [botocore.exceptions.ClientError] with its
    message; [BotoCoreError] stands for the botocore exceptions that are not
    a [ClientError] (parameter validation, connection errors);
    [RequestException] stands for the exceptions of [requests], by class name
    ([ConnectionError], [Timeout], [TooManyRedirects],
    [ContentDecodingError]). *)
Inductive exn : Type :=
| ClientError (msg : string)
| BotoCoreError (msg : string)
| KeyError (key : string)
| AttributeError
| TypeError
| JSONDecodeError
| RequestException (name : string)
| UnboundLocalError (var : string)
| SystemExit (code : Z).

Inductive outcome (A : Type) : Type :=
| Ret (a : A)
| Raise (e : exn).
Arguments Ret {A} a.
Arguments Raise {A} e.

(** ** Strings *)

(** [s.endswith(suffix)]. *)
Fixpoint endswith (s suffix : string) : bool :=
  if String.eqb s suffix then true
  else match s with
       | EmptyString => false
       | String _ s' => endswith s' suffix
       end.

(** [sub in s] on strings. *)
Fixpoint contains (s sub : string) : bool :=
  if String.prefix sub s then true
  else match s with
       | EmptyString => false
       | String _ s' => contains s' sub
       end.

Definition newline : string := String (ascii_of_nat 10) EmptyString.

(** ** Dicts and truth values *)

(** [d.get(key)] as an option; [d[key]] raises [KeyError] where this is
    [None]. *)
Fixpoint dict_get (key : string) (o : list (string * json)) : option json :=
  match o with
  | [] => None
  | (k, v) :: o' => if String.eqb key k then Some v else dict_get key o'
  end.

(** [v.keys()]: only a dict has the method. *)
Definition keys (v : json) : outcome (list string) :=
  match v with
  | JObj o => Ret (map fst o)
  | _ => Raise AttributeError
  end.

(** [key in ks]. *)
Definition key_in (key : string) (ks : list string) : bool :=
  existsb (String.eqb key) ks.

(** [v[key]] with a string key: a lookup in a dict, a [TypeError] on
    anything else. *)
Definition subscript (v : json) (key : string) : outcome json :=
  match v with
  | JObj o => match dict_get key o with
              | Some x => Ret x
              | None => Raise (KeyError key)
              end
  | _ => Raise TypeError
  end.

(** [bool(v)]: what [not token] negates. *)
Definition truthy (v : json) : bool :=
  match v with
  | JNull => false
  | JBool b => b
  | JInt n => negb (Z.eqb n 0)
  | JFloat f => match f with S754_zero _ => false | _ => true end
  | JStr s => negb (String.eqb s "")
  | JArr l => match l with [] => false | _ => true end
  | JObj o => match o with [] => false | _ => true end
  end.

(** [iter(v)]: what [for token in v] walks through. *)
Definition iterate (v : json) : outcome (list json) :=
  match v with
  | JArr l => Ret l
  | JObj o => Ret (map (fun kv => JStr (fst kv)) o)
  | JStr s => Ret (map (fun c => JStr (String c EmptyString)) (list_ascii_of_string s))
  | _ => Raise TypeError
  end.

(** ** Calls to the outside *)

Inductive method : Type := GET | POST.

(** A [requests] call: every one carries [HEADERS] and basic authentication. *)
Record request : Type := mkRequest {
  meth : method;
  url : string;
  auth : string * string
}.

(** The keyword arguments of [ssm_client.put_parameter]. *)
Record put_parameter_args : Type := mkPut {
  Name : string;
  Description : string;
  Value : json;
  Type_ : string;
  KeyId : string;
  Overwrite : bool;
  Tier : string
}.

Inductive call : Type :=
| Http (r : request)
| SsmGetParameter (name : string) (with_decryption : bool)
| KmsDescribeKey (key_id : string)
| SsmPutParameter (args : put_parameter_args)
| SnsListTopics
| SnsPublish (topic_arn message subject : string).

Definition trace : Type := list call.

(** The body of an HTTP response, as [json.loads] sees it. *)
Inductive content : Type :=
| Json (v : json)
| NotJson.

(** What a call of [requests.post] or [requests.get] comes to: a response,
    or an exception of [requests] (no connection, a timeout, a redirect loop,
    a body that cannot be decoded). *)
Inductive http_result : Type :=
| Answered (c : content)
| Failed (error : string).

(** The services.  Each answer may depend on the calls made so far.  An HTTP
    request is answered or fails; an AWS call returns the field the program
    reads from the response, or raises. *)
Record world : Type := mkWorld {
  http : trace -> request -> http_result;
  ssm_get_parameter : trace -> string -> outcome string;
  kms_describe_key : trace -> string -> outcome string;
  ssm_put_parameter : trace -> put_parameter_args -> outcome unit;
  sns_list_topics : trace -> outcome (list string);
  sns_publish : trace -> string -> string -> string -> outcome unit;
  getenv : string -> option string
}.

(** ** Computations *)

Definition M (A : Type) : Type := trace -> outcome A * trace.

Definition ret {A} (a : A) : M A := fun h => (Ret a, h).

Definition raise {A} (e : exn) : M A := fun h => (Raise e, h).

Definition bind {A B} (m : M A) (k : A -> M B) : M B :=
  fun h => match m h with
           | (Ret a, h') => k a h'
           | (Raise e, h') => (Raise e, h')
           end.

Definition lift {A} (r : outcome A) : M A := fun h => (r, h).

(** [try: body / except botocore.exceptions.ClientError as error: handler]. *)
Definition except_ClientError {A} (body : M A) (handler : string -> M A) : M A :=
  fun h => match body h with
           | (Raise (ClientError msg), h') => handler msg h'
           | r => r
           end.

(** An external call: ask the world with the trace so far, then record it. *)
Definition perform {A} (c : call) (answer : trace -> outcome A) : M A :=
  fun h => (answer h, (h ++ [c])%list).

Declare Scope py_scope.
Delimit Scope py_scope with py.
Notation "x <- m ;; k" := (bind m (fun x => k))
  (at level 61, m at next level, right associativity) : py_scope.
Notation "m ;;; k" := (bind m (fun _ => k))
  (at level 61, right associativity) : py_scope.
Local Open Scope py_scope.

Definition sys_exit {A} (code : Z) : M A := raise (SystemExit code).

Definition json_loads (c : content) : outcome json :=
  match c with
  | Json v => Ret v
  | NotJson => Raise JSONDecodeError
  end.

(** [requests.post] and [requests.get] return the response or raise. *)
Definition answered (a : http_result) : outcome content :=
  match a with
  | Answered c => Ret c
  | Failed error => Raise (RequestException error)
  end.

(** [v == s] for a string literal [s]. *)
Definition eq_str (v : json) (s : string) : bool :=
  match v with
  | JStr s' => String.eqb s' s
  | _ => false
  end.

(** [for x in l: body(x)]. *)
Fixpoint for_each {A} (body : A -> M unit) (l : list A) : M unit :=
  match l with
  | [] => ret tt
  | x :: l' => body x ;;; for_each body l'
  end.

(** ** The program *)

Definition TOPIC_STRING : string := "batch-job-failure".

Record event : Type := mkEvent { prefix : string }.

Section Program.

(** [str(v)] of a parsed value that is not a [str], as an f-string renders
    it; a [str] is rendered as itself. *)
Variable py_str : json -> string.

Definition format_value (v : json) : string :=
  match v with
  | JStr s => s
  | _ => py_str v
  end.

Definition format_env (v : option string) : string :=
  match v with
  | Some s => s
  | None => "None"
  end.

Variable w : world.

Definition requests_post (u : string) (a : string * string) : M content :=
  let r := mkRequest POST u a in
  perform (Http r) (fun h => answered (http w h r)).

Definition requests_get (u : string) (a : string * string) : M content :=
  let r := mkRequest GET u a in
  perform (Http r) (fun h => answered (http w h r)).

(** Lines 30-37 of [token_handler]: the pair [(token_url, delete_token_url)]. *)
Definition select_urls (p : string) : string * string :=
  if endswith p "-sit" || endswith p "-uat" then
    ("https://uat.urs.earthdata.nasa.gov/api/users/token",
     "https://uat.urs.earthdata.nasa.gov/api/users/revoke_token?token")
  else
    ("https://urs.earthdata.nasa.gov/api/users/token",
     "https://urs.earthdata.nasa.gov/api/users/revoke_token?token").

Definition get_edl_creds : M (string * string) :=
  except_ClientError
    (username <- perform (SsmGetParameter "generate-edl-username" true)
                   (fun h => ssm_get_parameter w h "generate-edl-username") ;;
     password <- perform (SsmGetParameter "generate-edl-password" true)
                   (fun h => ssm_get_parameter w h "generate-edl-password") ;;
     ret (username, password))
    (fun error => raise (ClientError error)).

(** The body of the loop of [handle_token_error] (lines 116-117). *)
Definition revoke_token (username password delete_token_url : string)
    (token : json) : M unit :=
  ks <- lift (keys token) ;;
  if key_in "access_token" ks then
    v <- lift (subscript token "access_token") ;;
    requests_post (delete_token_url ++ "=" ++ format_value v) (username, password) ;;;
    ret tt
  else ret tt.

Definition handle_token_error (token_data : json)
    (username password token_url delete_token_url : string) : M json :=
  get_response <- requests_get (token_url ++ "s") (username, password) ;;
  token_data <- lift (json_loads get_response) ;;
  tokens <- lift (iterate token_data) ;;
  for_each (revoke_token username password delete_token_url) tokens ;;;
  post_response <- requests_post token_url (username, password) ;;
  token_data <- lift (json_loads post_response) ;;
  ks <- lift (keys token_data) ;;
  if key_in "error" ks then ret (JBool false)
  else lift (subscript token_data "access_token").

Definition generate_token
    (username password token_url delete_token_url : string) : M json :=
  post_response <- requests_post token_url (username, password) ;;
  token_data <- lift (json_loads post_response) ;;
  ks <- lift (keys token_data) ;;
  if key_in "error" ks then
    err <- lift (subscript token_data "error") ;;
    if eq_str err "max_token_limit" then
      handle_token_error token_data username password token_url delete_token_url
    else ret (JBool false)
  else lift (subscript token_data "access_token").

Definition store_token (token : json) (p : string) : M unit :=
  except_ClientError
    (key <- perform (KmsDescribeKey "alias/aws/ssm")
              (fun h => kms_describe_key w h "alias/aws/ssm") ;;
     let args := mkPut (p ++ "-edl-token") "Temporary EDL bearer token" token
                       "SecureString" key true "Standard" in
     perform (SsmPutParameter args) (fun h => ssm_put_parameter w h args))
    (fun error => raise (ClientError error)).

(** The loop of lines 165-167: [topic_arn] stays unbound ([None]) until a
    topic matches, and the last match wins. *)
Definition find_topic_arn (topics : list string) : option string :=
  fold_left (fun topic_arn topic =>
               if contains topic TOPIC_STRING then Some topic else topic_arn)
            topics None.

Definition compose_message (sigevent_type sigevent_description sigevent_data : string)
    : string :=
  let message :=
    "The Generate Token Creator has encountered an error." ++ newline
    ++ "Log file: " ++ format_env (getenv w "AWS_LAMBDA_LOG_GROUP_NAME") ++ "/"
    ++ format_env (getenv w "AWS_LAMBDA_LOG_STREAM_NAME") ++ "." ++ newline
    ++ "Error type: " ++ sigevent_type ++ "." ++ newline
    ++ "Error description: " ++ sigevent_description ++ newline in
  if negb (String.eqb sigevent_data "")
  then message ++ "Error data: " ++ sigevent_data
  else message.

Definition publish_event (sigevent_type sigevent_description sigevent_data : string)
    : M unit :=
  topics <- except_ClientError (perform SnsListTopics (sns_list_topics w))
              (fun e => sys_exit 1) ;;
  let topic_arn := find_topic_arn topics in
  let subject := "Generate Token Creator Lambda Failure" in
  let message := compose_message sigevent_type sigevent_description sigevent_data in
  except_ClientError
    (match topic_arn with
     | None => raise (UnboundLocalError "topic_arn")
     | Some arn => perform (SnsPublish arn message subject)
                     (fun h => sns_publish w h arn message subject)
     end)
    (fun e => sys_exit 1).

Definition token_handler (ev : event) : M unit :=
  let '(token_url, delete_token_url) := select_urls (prefix ev) in
  except_ClientError
    (creds <- get_edl_creds ;;
     let '(username, password) := creds in
     token <- generate_token username password token_url delete_token_url ;;
     store_token token (prefix ev) ;;;
     if negb (truthy token) then
       publish_event "ERROR" "Issue generating and storing bearer token." "" ;;;
       sys_exit 1
     else ret tt)
    (fun error => publish_event "ERROR" error "" ;;; sys_exit 1).

End Program.

(** ** Reading traces *)

Section Requests.

Variable py_str : json -> string.
Variables username password : string.

(** The three requests [generate_token] and [handle_token_error] send. *)
Definition token_request (token_url : string) : call :=
  Http (mkRequest POST token_url (username, password)).

Definition list_request (token_url : string) : call :=
  Http (mkRequest GET (token_url ++ "s") (username, password)).

Definition revoke_request (delete_token_url : string) (v : json) : call :=
  Http (mkRequest POST (delete_token_url ++ "=" ++ format_value py_str v)
                  (username, password)).

End Requests.

(** A POST to exactly [token_url]. *)
Definition is_token_post (token_url : string) (c : call) : bool :=
  match c with
  | Http (mkRequest POST u _) => String.eqb u token_url
  | _ => false
  end.

(** A POST to [delete_token_url] with some token appended. *)
Definition is_revoke (delete_token_url : string) (c : call) : bool :=
  match c with
  | Http (mkRequest POST u _) => String.prefix (delete_token_url ++ "=") u
  | _ => false
  end.

Definition is_http (c : call) : bool :=
  match c with
  | Http _ => true
  | _ => false
  end.

Definition is_sns (c : call) : bool :=
  match c with
  | SnsListTopics | SnsPublish _ _ _ => true
  | _ => false
  end.

(** Every call a computation adds to the trace satisfies [P], from any
    trace and whatever the outcome. *)
Definition emits {A} (P : call -> Prop) (m : M A) : Prop :=
  forall h, exists evs, snd (m h) = (h ++ evs)%list /\ Forall P evs.

(** What the retried POST of [handle_token_error] makes of its response
    (lines 121-126). *)
Definition read_retry (c : content) : outcome json :=
  match json_loads c with
  | Ret token_data =>
      match keys token_data with
      | Ret ks => if key_in "error" ks then Ret (JBool false)
                  else subscript token_data "access_token"
      | Raise e => Raise e
      end
  | Raise e => Raise e
  end.

(** [json.loads(response.content)] of a request that may have raised. *)
Definition response_json (a : http_result) : outcome json :=
  match answered a with
  | Ret c => json_loads c
  | Raise e => Raise e
  end.

(** The result of [handle_token_error] once the retried POST is sent. *)
Definition retry_outcome (a : http_result) : outcome json :=
  match answered a with
  | Ret c => read_retry c
  | Raise e => Raise e
  end.

(** Two worlds whose HTTP answers differ at most on revoke requests. *)
Definition same_but_revoke (delete_token_url : string) (w1 w2 : world) : Prop :=
  forall h r, is_revoke delete_token_url (Http r) = false -> http w1 h r = http w2 h r.

Definition UAT_BASE : string := "https://uat.urs.earthdata.nasa.gov/".
Definition OPS_BASE : string := "https://urs.earthdata.nasa.gov/".

(** An HTTP call goes to a URL under [base]; other calls are not routed. *)
Definition routed_to (base : string) (c : call) : Prop :=
  match c with
  | Http r => String.prefix base (url r) = true
  | _ => True
  end.

(** ** Concrete worlds

    Worlds for running the program on explicit inputs.  The HTTP side answers
    from a script: the n-th request sent gets the n-th body. *)

Definition example_str (v : json) : string := "None".

Definition scripted (bodies : list content)
    (put : put_parameter_args -> outcome unit)
    (topics : outcome (list string)) : world :=
  {| http := fun h _ => Answered (nth (length (filter is_http h)) bodies NotJson);
     ssm_get_parameter := fun _ name =>
       Ret (if String.eqb name "generate-edl-username" then "user" else "secret");
     kms_describe_key := fun _ _ => Ret "1234abcd-12ab-34cd-56ef-1234567890ab";
     ssm_put_parameter := fun _ args => put args;
     sns_list_topics := fun _ => topics;
     sns_publish := fun _ _ _ _ => Ret tt;
     getenv := fun _ => None |}.

(** A parameter store that takes every write. *)
Definition put_accepts (args : put_parameter_args) : outcome unit := Ret tt.

(** The parameter validation of the AWS SDK: [Value] has to be a [str], and
    a call with anything else is refused before it is sent, with a
    [ParamValidationError], which is not a [ClientError]. *)
Definition put_validates (args : put_parameter_args) : outcome unit :=
  match Value args with
  | JStr _ => Ret tt
  | _ => Raise (BotoCoreError "ParamValidationError")
  end.

Definition failure_topic : string :=
  "arn:aws:sns:us-west-2:123456789012:generate-batch-job-failure".

Definition other_topic : string :=
  "arn:aws:sns:us-west-2:123456789012:generate-cloudwatch-alarms".

Definition token_body (token : string) : content :=
  Json (JObj [("access_token", JStr token); ("token_type", JStr "Bearer");
              ("expiration_date", JStr "12/31/2026")]).

Definition error_body (code : string) : content :=
  Json (JObj [("error", JStr code)]).

Definition listing_body (tokens : list string) : content :=
  Json (JArr (map (fun t => JObj [("access_token", JStr t);
                                  ("expiration_date", JStr "12/31/2026")]) tokens)).

(** [w], except that every revoke request is answered with [body]. *)
Definition answer_revokes (delete_token_url : string) (body : content) (w : world)
    : world :=
  {| http := fun h r => if is_revoke delete_token_url (Http r) then Answered body
                        else http w h r;
     ssm_get_parameter := ssm_get_parameter w;
     kms_describe_key := kms_describe_key w;
     ssm_put_parameter := ssm_put_parameter w;
     sns_list_topics := sns_list_topics w;
     sns_publish := sns_publish w;
     getenv := getenv w |}.

(** ** More readings of values and worlds *)

(** The [access_token] values of the listed objects that have one, in the
    order of the listing. *)
Fixpoint listed_access_tokens (objs : list (list (string * json))) : list json :=
  match objs with
  | [] => []
  | o :: objs' =>
      match dict_get "access_token" o with
      | Some v => v :: listed_access_tokens objs'
      | None => listed_access_tokens objs'
      end
  end.

Definition is_object (v : json) : bool :=
  match v with
  | JObj _ => true
  | _ => false
  end.

(** The exceptions of the AWS SDK. *)
Definition is_botocore (e : exn) : bool :=
  match e with
  | ClientError _ | BotoCoreError _ => true
  | _ => false
  end.

Definition botocore_only {A} (r : outcome A) : Prop :=
  match r with
  | Ret _ => True
  | Raise e => is_botocore e = true
  end.

(** A world whose AWS calls raise nothing but the SDK's exceptions. *)
Definition aws_world (w : world) : Prop :=
  (forall h name, botocore_only (ssm_get_parameter w h name))
  /\ (forall h key_id, botocore_only (kms_describe_key w h key_id))
  /\ (forall h args, botocore_only (ssm_put_parameter w h args))
  /\ (forall h, botocore_only (sns_list_topics w h))
  /\ (forall h arn msg subj, botocore_only (sns_publish w h arn msg subj)).

(** [w] with a parameter store that has no credentials. *)
Definition without_credentials (w : world) : world :=
  {| http := http w;
     ssm_get_parameter := fun _ _ => Raise (ClientError "ParameterNotFound");
     kms_describe_key := kms_describe_key w;
     ssm_put_parameter := ssm_put_parameter w;
     sns_list_topics := sns_list_topics w;
     sns_publish := sns_publish w;
     getenv := getenv w |}.

(** A parameter store that refuses every write. *)
Definition put_denied (args : put_parameter_args) : outcome unit :=
  Raise (ClientError "AccessDeniedException").

(** The exceptions that sending a request and reading its response can
    raise. *)
Definition is_read_error (e : exn) : bool :=
  match e with
  | JSONDecodeError | AttributeError | TypeError | KeyError _
  | RequestException _ => true
  | _ => false
  end.

(** [w], except that every revoke request fails with the exception [error]. *)
Definition fail_revokes (delete_token_url error : string) (w : world) : world :=
  {| http := fun h r => if is_revoke delete_token_url (Http r) then Failed error
                        else http w h r;
     ssm_get_parameter := ssm_get_parameter w;
     kms_describe_key := kms_describe_key w;
     ssm_put_parameter := ssm_put_parameter w;
     sns_list_topics := sns_list_topics w;
     sns_publish := sns_publish w;
     getenv := getenv w |}.

(** Each of the revoke requests for the values [vs], sent one after the other
    from the trace [h], is answered. *)
Definition revokes_answered_from (py_str : json -> string) (w : world)
    (username password delete_token_url : string) (h : trace) (vs : list json) : Prop :=
  forall before v after,
    vs = (before ++ v :: after)%list ->
    exists c,
      http w (h ++ map (revoke_request py_str username password delete_token_url) before)%list
           (mkRequest POST (delete_token_url ++ "=" ++ format_value py_str v)
                      (username, password)) = Answered c.

(** Every revoke request is answered, whenever it is sent. *)
Definition revokes_answered (delete_token_url : string) (w : world) : Prop :=
  forall h r, is_revoke delete_token_url (Http r) = true ->
              exists c, http w h r = Answered c.

(** Lines 44-45 and 47-48 of [token_handler]: notify, then exit. *)
Definition notify_and_exit (w : world) (description : string) : M unit :=
  publish_event w "ERROR" description "" ;;; sys_exit 1.

(** ** Facts about the helpers *)

Lemma endswith_refl s : endswith s s = true.
Proof. destruct s; cbn [endswith]; rewrite String.eqb_refl; reflexivity. Qed.

(** [endswith] is the suffix relation. *)
Lemma endswith_spec s suffix :
  endswith s suffix = true <-> exists front, s = front ++ suffix.
Proof.
  split.
  - induction s as [|c s IH]; cbn [endswith].
    + destruct (String.eqb_spec "" suffix) as [<-|]; [|discriminate].
      intros _. exists "". reflexivity.
    + destruct (String.eqb_spec (String c s) suffix) as [<-|_].
      * intros _. exists "". reflexivity.
      * intros H. destruct (IH H) as [front ->]. exists (String c front). reflexivity.
  - intros [front ->]. induction front as [|c front IH].
    + apply endswith_refl.
    + cbn [append endswith]. rewrite IH. destruct (String.eqb _ _); reflexivity.
Qed.

Lemma prefix_app s t : String.prefix s (s ++ t) = true.
Proof.
  induction s as [|c s IH]; simpl; [destruct t; reflexivity|].
  destruct (ascii_dec c c); [assumption | congruence].
Qed.

Lemma append_assoc (a b c : string) : (a ++ b) ++ c = a ++ (b ++ c).
Proof. induction a as [|x a IH]; cbn; [reflexivity | rewrite IH; reflexivity]. Qed.

Lemma prefix_split s t :
  String.prefix s t = true -> exists back, t = s ++ back.
Proof.
  revert t. induction s as [|c s IH]; intros t H.
  - exists t. reflexivity.
  - destruct t as [|d t]; simpl in H; [discriminate|].
    destruct (ascii_dec c d) as [->|]; [|discriminate].
    destruct (IH t H) as [back ->]. exists back. reflexivity.
Qed.

(** [contains] is the substring relation. *)
Lemma contains_spec s sub :
  contains s sub = true <-> exists front back, s = front ++ sub ++ back.
Proof.
  split.
  - induction s as [|c s IH]; cbn [contains].
    + destruct (String.prefix sub "") eqn:E; [|discriminate].
      intros _. destruct (prefix_split _ _ E) as [back ->]. exists "", back. reflexivity.
    + destruct (String.prefix sub (String c s)) eqn:E.
      * intros _. destruct (prefix_split _ _ E) as [back ->]. exists "", back. reflexivity.
      * intros H. destruct (IH H) as (front & back & ->).
        exists (String c front), back. reflexivity.
  - intros (front & back & ->). induction front as [|c front IH].
    + cbn [append]. destruct (sub ++ back) eqn:E; cbn [contains];
        rewrite <- E, prefix_app; reflexivity.
    + cbn [append contains]. rewrite IH. destruct (String.prefix _ _); reflexivity.
Qed.

(** [key in d.keys()] holds exactly where [d[key]] is defined. *)
Lemma key_in_keys key o :
  key_in key (map fst o) = match dict_get key o with Some _ => true | None => false end.
Proof.
  induction o as [|[k v] o IH]; simpl; [reflexivity|].
  destruct (String.eqb key k); [reflexivity | exact IH].
Qed.

(** ** How computations extend the trace *)

Lemma emits_ret {A} P (a : A) : emits P (ret a).
Proof. intros h. exists []. rewrite app_nil_r. split; [reflexivity | constructor]. Qed.

Lemma emits_raise {A} P e : emits P (@raise A e).
Proof. intros h. exists []. rewrite app_nil_r. split; [reflexivity | constructor]. Qed.

Lemma emits_lift {A} P (r : outcome A) : emits P (lift r).
Proof. intros h. exists []. rewrite app_nil_r. split; [reflexivity | constructor]. Qed.

Lemma emits_perform {A} (P : call -> Prop) c (answer : trace -> outcome A) :
  P c -> emits P (perform c answer).
Proof. intros Hc h. exists [c]. split; [reflexivity | repeat constructor; assumption]. Qed.

Lemma emits_bind {A B} P (m : M A) (k : A -> M B) :
  emits P m -> (forall a, emits P (k a)) -> emits P (bind m k).
Proof.
  intros Hm Hk h. unfold bind. destruct (Hm h) as (evs & E & F).
  destruct (m h) as [[a|e] h']; simpl in E; subst h'.
  - destruct (Hk a (h ++ evs)%list) as (evs' & E' & F').
    exists (evs ++ evs')%list. rewrite E', app_assoc. split; [reflexivity|].
    apply Forall_app; split; assumption.
  - exists evs. split; [reflexivity | assumption].
Qed.

Lemma emits_except {A} P (m : M A) (handler : string -> M A) :
  emits P m -> (forall msg, emits P (handler msg)) -> emits P (except_ClientError m handler).
Proof.
  intros Hm Hk h. unfold except_ClientError. destruct (Hm h) as (evs & E & F).
  destruct (m h) as [[a|e] h']; simpl in E; subst h'.
  - exists evs. split; [reflexivity | assumption].
  - destruct e; try (exists evs; split; [reflexivity | assumption]).
    destruct (Hk msg (h ++ evs)%list) as (evs' & E' & F').
    exists (evs ++ evs')%list. rewrite E', app_assoc. split; [reflexivity|].
    apply Forall_app; split; assumption.
Qed.

Lemma emits_for_each {A} P (body : A -> M unit) l :
  (forall x, emits P (body x)) -> emits P (for_each body l).
Proof.
  intros Hb. induction l as [|x l IH]; simpl.
  - apply emits_ret.
  - apply emits_bind; [apply Hb | intros _; exact IH].
Qed.

Lemma emits_weaken {A} (P Q : call -> Prop) (m : M A) :
  (forall c, P c -> Q c) -> emits P m -> emits Q m.
Proof.
  intros HPQ Hm h. destruct (Hm h) as (evs & E & F). exists evs. split; [exact E|].
  eapply Forall_impl; eauto.
Qed.

(** ** The token issuer: [generate_token] and [handle_token_error] *)

Section Issuer.

Variable py_str : json -> string.
Variables username password token_url delete_token_url : string.

Local Abbreviation revoke := (revoke_request py_str username password delete_token_url).
Local Abbreviation first_post := (token_request username password token_url).
Local Abbreviation listing := (list_request username password token_url).
Local Abbreviation treq := (mkRequest POST token_url (username, password)).
Local Abbreviation lreq := (mkRequest GET (token_url ++ "s") (username, password)).
Local Abbreviation rreq v :=
  (mkRequest POST (delete_token_url ++ "=" ++ format_value py_str v) (username, password)).

Lemma revoke_request_is_revoke v : is_revoke delete_token_url (revoke v) = true.
Proof.
  change (String.prefix (delete_token_url ++ "=")
            (delete_token_url ++ "=" ++ format_value py_str v) = true).
  rewrite <- append_assoc. apply prefix_app.
Qed.

(** One turn of the loop: a token object with an access token is revoked,
    and a revoke request that fails stops the loop; an object without an
    access token is skipped; anything that is not an object stops the loop. *)
Lemma revoke_token_run w token h :
  revoke_token py_str w username password delete_token_url token h =
  match token with
  | JObj o => match dict_get "access_token" o with
              | Some v =>
                  (match http w h (rreq v) with
                   | Answered _ => Ret tt
                   | Failed error => Raise (RequestException error)
                   end,
                   (h ++ [revoke v])%list)
              | None => (Ret tt, h)
              end
  | _ => (Raise AttributeError, h)
  end.
Proof.
  unfold revoke_token, bind, lift, requests_post, perform.
  destruct token; try reflexivity.
  cbn [keys subscript]. rewrite key_in_keys.
  destruct (dict_get "access_token" o) as [v|]; [|reflexivity].
  cbn zeta. destruct (http w h (rreq v)); reflexivity.
Qed.

(** The bodies of the responses to the revoke requests are never looked at:
    where every revoke request is answered, the loop runs the same. *)
Lemma revoke_loop_any_world w1 w2 tokens h :
  revokes_answered delete_token_url w1 ->
  revokes_answered delete_token_url w2 ->
  for_each (revoke_token py_str w1 username password delete_token_url) tokens h =
  for_each (revoke_token py_str w2 username password delete_token_url) tokens h.
Proof.
  intros H1 H2. revert h. induction tokens as [|token tokens IH]; intros h; [reflexivity|].
  cbn [for_each]. unfold bind. rewrite (revoke_token_run w1), (revoke_token_run w2).
  destruct token; try reflexivity.
  destruct (dict_get "access_token" o) as [v|]; [|apply IH].
  destruct (H1 h (rreq v) (revoke_request_is_revoke v)) as [c1 ->].
  destruct (H2 h (rreq v) (revoke_request_is_revoke v)) as [c2 ->].
  apply IH.
Qed.

(** The loop only ever sends revoke requests. *)
Lemma revoke_loop_shape w tokens h :
  exists r vs,
    for_each (revoke_token py_str w username password delete_token_url) tokens h =
      (r, (h ++ map revoke vs)%list)
    /\ length vs <= length tokens.
Proof.
  revert h. induction tokens as [|token tokens IH]; intros h.
  - exists (Ret tt), []. cbn. rewrite app_nil_r. split; [reflexivity | lia].
  - cbn [for_each]. unfold bind. rewrite revoke_token_run.
    destruct token;
      try (exists (Raise AttributeError), []; cbn; rewrite app_nil_r; split; [reflexivity | lia]).
    destruct (dict_get "access_token" o) as [v|].
    + destruct (http w h (rreq v)) as [c|error].
      * destruct (IH (h ++ [revoke v])%list) as (r & vs & E & L).
        exists r, (v :: vs). rewrite E, <- app_assoc. cbn. split; [reflexivity | lia].
      * exists (Raise (RequestException error)), [v]. cbn. split; [reflexivity | lia].
    + destruct (IH h) as (r & vs & E & L).
      exists r, vs. rewrite E. cbn. split; [reflexivity | lia].
Qed.

Lemma revokes_answered_from_cons w h v vs :
  revokes_answered_from py_str w username password delete_token_url h (v :: vs) ->
  (exists c, http w h (rreq v) = Answered c)
  /\ revokes_answered_from py_str w username password delete_token_url
       (h ++ [revoke v])%list vs.
Proof.
  intros H. split.
  - destruct (H [] v vs eq_refl) as [c E]. cbn [map] in E. rewrite app_nil_r in E.
    exists c. exact E.
  - intros before x after ->. destruct (H (v :: before) x after eq_refl) as [c E].
    exists c. rewrite <- app_assoc. exact E.
Qed.

(** The loop over a listing of objects, where the revoke requests are
    answered: the objects with an access token are revoked, in order, the
    others passed over, and the loop completes. *)
Lemma revoke_loop_objects w objs h :
  revokes_answered_from py_str w username password delete_token_url h
    (listed_access_tokens objs) ->
  for_each (revoke_token py_str w username password delete_token_url) (map JObj objs) h =
    (Ret tt, (h ++ map revoke (listed_access_tokens objs))%list).
Proof.
  revert h. induction objs as [|o objs IH]; intros h Hans.
  - cbn. rewrite app_nil_r. reflexivity.
  - cbn [map for_each listed_access_tokens] in *. unfold bind. rewrite revoke_token_run.
    destruct (dict_get "access_token" o) as [v|]; [|rewrite (IH h Hans); reflexivity].
    destruct (revokes_answered_from_cons _ _ _ _ Hans) as [[c ->] Hrest].
    rewrite (IH _ Hrest), <- app_assoc. reflexivity.
Qed.

Lemma listed_access_tokens_all objs vs :
  Forall2 (fun o v => dict_get "access_token" o = Some v) objs vs ->
  listed_access_tokens objs = vs.
Proof.
  induction 1 as [|o v objs vs Hov _ IH]; cbn; [reflexivity|]. rewrite Hov, IH. reflexivity.
Qed.

(** When every listed element is an object with an access token and the
    revoke requests are answered, each one is revoked, in order, and the loop
    completes. *)
Lemma revoke_loop_all w objs vs h :
  Forall2 (fun o v => dict_get "access_token" o = Some v) objs vs ->
  revokes_answered_from py_str w username password delete_token_url h vs ->
  for_each (revoke_token py_str w username password delete_token_url) (map JObj objs) h =
    (Ret tt, (h ++ map revoke vs)%list).
Proof.
  intros F Hans. rewrite <- (listed_access_tokens_all _ _ F) in *.
  apply revoke_loop_objects. exact Hans.
Qed.

(** [handle_token_error], call by call: the listing, the loop, the retried
    POST and what is made of its response. *)
Lemma handle_token_error_run w token_data h :
  handle_token_error py_str w token_data username password token_url delete_token_url h =
  let h1 := (h ++ [listing])%list in
  match response_json (http w h lreq) with
  | Raise e => (Raise e, h1)
  | Ret listed =>
      match iterate listed with
      | Raise e => (Raise e, h1)
      | Ret tokens =>
          match for_each (revoke_token py_str w username password delete_token_url)
                         tokens h1 with
          | (Raise e, h2) => (Raise e, h2)
          | (Ret _, h2) => (retry_outcome (http w h2 treq), (h2 ++ [first_post])%list)
          end
      end
  end.
Proof.
  unfold handle_token_error, bind, requests_get, requests_post, perform, lift,
    response_json, retry_outcome, read_retry.
  cbn zeta.
  destruct (answered (http w h lreq)) as [c|e]; [|reflexivity].
  destruct (json_loads c) as [listed|e]; [|reflexivity].
  destruct (iterate listed) as [tokens|e]; [|reflexivity].
  destruct (for_each _ tokens _) as [[[]|e] h2]; [|reflexivity].
  destruct (answered (http w h2 treq)) as [c2|e]; [|reflexivity].
  destruct (json_loads c2) as [td|e]; [|reflexivity].
  destruct (keys td) as [ks|e]; [|reflexivity].
  destruct (key_in "error" ks); reflexivity.
Qed.

(** [generate_token] up to the call of [handle_token_error]. *)
Lemma generate_token_run w h :
  generate_token py_str w username password token_url delete_token_url h =
  let h1 := (h ++ [first_post])%list in
  match response_json (http w h treq) with
  | Raise e => (Raise e, h1)
  | Ret token_data =>
      match keys token_data with
      | Raise e => (Raise e, h1)
      | Ret ks =>
          if key_in "error" ks then
            match subscript token_data "error" with
            | Raise e => (Raise e, h1)
            | Ret err =>
                if eq_str err "max_token_limit" then
                  handle_token_error py_str w token_data username password
                                     token_url delete_token_url h1
                else (Ret (JBool false), h1)
            end
          else (subscript token_data "access_token", h1)
      end
  end.
Proof.
  unfold generate_token, bind, requests_post, perform, lift, ret, response_json. cbn zeta.
  destruct (answered (http w h treq)) as [c|e]; [|reflexivity].
  destruct (json_loads c) as [td|e]; [|reflexivity].
  destruct (keys td) as [ks|e]; [|reflexivity].
  destruct (key_in "error" ks); [|reflexivity].
  destruct (subscript td "error") as [err|e]; [|reflexivity].
  destruct (eq_str err "max_token_limit"); reflexivity.
Qed.

End Issuer.

(** *** A first POST that succeeds or fails outright *)

(** C6.  When the first POST to the token endpoint is answered with an object
    that has no [error] key and whose [access_token] is the string [tok],
    [generate_token] returns exactly [tok], and the POST is the only request
    it sends: no revoke request, no further POST. *)
Theorem generate_token_first_post_token :
  forall py_str w username password token_url delete_token_url h o tok,
    http w h (mkRequest POST token_url (username, password)) = Answered (Json (JObj o)) ->
    dict_get "error" o = None ->
    dict_get "access_token" o = Some (JStr tok) ->
    generate_token py_str w username password token_url delete_token_url h =
      (Ret (JStr tok), (h ++ [token_request username password token_url])%list).
Proof.
  intros py_str w u p t d h o tok Hpost Herr Htok.
  rewrite generate_token_run. cbn zeta. rewrite Hpost.
  cbn [response_json answered json_loads keys subscript].
  rewrite key_in_keys, Herr, Htok. reflexivity.
Qed.

(** C7.  When the first POST is answered with an object whose [error] is
    anything but ["max_token_limit"], [generate_token] returns [False] at
    once: the POST is the only request it sends. *)
Theorem generate_token_other_error :
  forall py_str w username password token_url delete_token_url h o err,
    http w h (mkRequest POST token_url (username, password)) = Answered (Json (JObj o)) ->
    dict_get "error" o = Some err ->
    eq_str err "max_token_limit" = false ->
    generate_token py_str w username password token_url delete_token_url h =
      (Ret (JBool false), (h ++ [token_request username password token_url])%list).
Proof.
  intros py_str w u p t d h o err Hpost Herr Hne.
  rewrite generate_token_run. cbn zeta. rewrite Hpost.
  cbn [response_json answered json_loads keys subscript].
  rewrite key_in_keys, Herr, Hne. reflexivity.
Qed.

(** *** The max-token-limit path *)

(** C2, amended.  When the first POST is answered with
    [error = "max_token_limit"], the listing GET with an array of N objects
    that each have an [access_token], and each revoke request, when it is
    sent, is answered (the call of [requests.post] returns),
    [generate_token] sends, after the POST and the GET, exactly N revoke
    requests, one per listed token, in order and each with that token's
    [access_token] value, and then exactly one more POST to the token
    endpoint; nothing follows it. *)
Theorem generate_token_revokes_each_listed :
  forall py_str w username password token_url delete_token_url h o objs vs,
    http w h (mkRequest POST token_url (username, password)) = Answered (Json (JObj o)) ->
    dict_get "error" o = Some (JStr "max_token_limit") ->
    http w (h ++ [token_request username password token_url])%list
         (mkRequest GET (token_url ++ "s") (username, password)) =
      Answered (Json (JArr (map JObj objs))) ->
    Forall2 (fun obj v => dict_get "access_token" obj = Some v) objs vs ->
    revokes_answered_from py_str w username password delete_token_url
      (h ++ [token_request username password token_url;
             list_request username password token_url])%list vs ->
    length vs = length objs /\
    snd (generate_token py_str w username password token_url delete_token_url h) =
      (h ++ [token_request username password token_url;
             list_request username password token_url]
         ++ map (revoke_request py_str username password delete_token_url) vs
         ++ [token_request username password token_url])%list.
Proof.
  intros py_str w u p t d h o objs vs Hpost Herr Hget Hall Hans.
  split; [symmetry; eapply Forall2_length; eassumption|].
  rewrite generate_token_run. cbn zeta. rewrite Hpost.
  cbn [response_json answered json_loads keys subscript].
  rewrite key_in_keys, Herr. cbn [eq_str]. rewrite String.eqb_refl.
  rewrite handle_token_error_run. cbn zeta. rewrite Hget.
  cbn [response_json answered json_loads iterate].
  rewrite <- app_assoc. cbn [app].
  rewrite (revoke_loop_all _ _ _ _ _ _ _ _ Hall Hans). cbn [snd].
  rewrite <- !app_assoc. reflexivity.
Qed.

(** *** The shape of every run of [generate_token] *)

Section Shape.

Variable py_str : json -> string.
Variable w : world.
Variables username password token_url delete_token_url : string.

Local Abbreviation revoke := (revoke_request py_str username password delete_token_url).
Local Abbreviation first_post := (token_request username password token_url).
Local Abbreviation listing := (list_request username password token_url).
Local Abbreviation treq := (mkRequest POST token_url (username, password)).
Local Abbreviation issue :=
  (generate_token py_str w username password token_url delete_token_url).

(** A run sends the first POST and stops; or goes on to the listing GET and
    some revoke requests and stops on an exception; or goes on to the retried
    POST, which is then its last request and decides the result. *)
Lemma generate_token_shape h :
  (exists r, issue h = (r, (h ++ [first_post])%list))
  \/ (exists vs e, issue h = (Raise e, (h ++ first_post :: listing :: map revoke vs)%list))
  \/ (exists vs,
        issue h =
          (retry_outcome (http w (h ++ first_post :: listing :: map revoke vs)%list treq),
           (h ++ first_post :: listing :: map revoke vs ++ [first_post])%list)).
Proof.
  rewrite generate_token_run. cbn zeta.
  destruct (response_json (http w h treq)) as [td|e]; [|left; eexists; reflexivity].
  destruct (keys td) as [ks|e]; [|left; eexists; reflexivity].
  destruct (key_in "error" ks); [|left; eexists; reflexivity].
  destruct (subscript td "error") as [err|e]; [|left; eexists; reflexivity].
  destruct (eq_str err "max_token_limit"); [|left; eexists; reflexivity].
  right. rewrite handle_token_error_run. cbn zeta.
  destruct (response_json _) as [listed|e];
    [|left; exists [], e; cbn [map]; rewrite <- app_assoc; reflexivity].
  destruct (iterate listed) as [tokens|e];
    [|left; exists [], e; cbn [map]; rewrite <- app_assoc; reflexivity].
  destruct (revoke_loop_shape py_str username password delete_token_url w tokens
              ((h ++ [first_post]) ++ [listing])%list) as (r & vs & E & _).
  rewrite E. rewrite <- !app_assoc. cbn [app].
  destruct r as [[]|e].
  - right. exists vs. reflexivity.
  - left. exists vs, e. reflexivity.
Qed.

End Shape.

(** Lists that end in their only element of a kind. *)
Lemma split_at_last {A} (f : A -> bool) x l pre post :
  f x = true -> Forall (fun c => f c = false) l ->
  (l ++ [x])%list = (pre ++ x :: post)%list -> pre = l /\ post = [].
Proof.
  intros Hx Hl. revert pre. induction Hl as [|a l Ha Hl IH]; intros pre E.
  - destruct pre as [|c pre]; cbn in E.
    + injection E as <-. split; reflexivity.
    + injection E as _ E. destruct pre; discriminate.
  - destruct pre as [|c pre]; cbn in E.
    + injection E as -> _. congruence.
    + injection E as -> E. destruct (IH pre E) as [-> ->]. split; reflexivity.
Qed.

Lemma no_split {A} (f : A -> bool) x l pre post :
  f x = true -> Forall (fun c => f c = false) l -> l <> (pre ++ x :: post)%list.
Proof.
  intros Hx Hl ->. apply Forall_app in Hl as [_ Hl]. inversion Hl; congruence.
Qed.

Lemma filter_none {A} (f : A -> bool) l :
  Forall (fun c => f c = false) l -> filter f l = [].
Proof.
  induction 1 as [|a l Ha _ IH]; cbn; [reflexivity|]. rewrite Ha. exact IH.
Qed.

Lemma filter_cons_true {A} (f : A -> bool) x l :
  f x = true -> filter f (x :: l) = x :: filter f l.
Proof. intros H. cbn. rewrite H. reflexivity. Qed.

(** *** The two environments *)

Lemma select_urls_cases p :
  select_urls p =
    ("https://uat.urs.earthdata.nasa.gov/api/users/token",
     "https://uat.urs.earthdata.nasa.gov/api/users/revoke_token?token")
  \/ select_urls p =
    ("https://urs.earthdata.nasa.gov/api/users/token",
     "https://urs.earthdata.nasa.gov/api/users/revoke_token?token").
Proof. unfold select_urls. destruct (_ || _); [left | right]; reflexivity. Qed.

(** In both environments the token endpoint is not a revoke URL, and neither
    the listing nor a revoke request is a POST to the token endpoint. *)
Lemma token_post_not_revoke p username password :
  is_revoke (snd (select_urls p))
            (token_request username password (fst (select_urls p))) = false.
Proof. destruct (select_urls_cases p) as [-> | ->]; reflexivity. Qed.

Lemma listing_not_revoke p username password :
  is_revoke (snd (select_urls p))
            (list_request username password (fst (select_urls p))) = false.
Proof. reflexivity. Qed.

Lemma revoke_not_token_post py_str p username password v :
  is_token_post (fst (select_urls p))
    (revoke_request py_str username password (snd (select_urls p)) v) = false.
Proof. destruct (select_urls_cases p) as [-> | ->]; reflexivity. Qed.

Lemma between_posts py_str p username password vs :
  Forall (fun c => is_token_post (fst (select_urls p)) c = false)
    (list_request username password (fst (select_urls p))
       :: map (revoke_request py_str username password (snd (select_urls p))) vs).
Proof.
  constructor; [reflexivity|].
  apply Forall_map, Forall_forall. intros v _. apply revoke_not_token_post.
Qed.

(** C4.  In every run of [generate_token], in either environment, at most two
    POSTs go to the token endpoint: the first and at most one retry.  A retry
    is the last request of the run, so no revoke request and no further retry
    follows it; and when the retry is answered with an object that has an
    [error] key, the run returns [False].  The revoke requests sent before
    the retry stay in the trace. *)
Theorem generate_token_retries_at_most_once :
  forall py_str w username password p h,
    let token_url := fst (select_urls p) in
    let delete_token_url := snd (select_urls p) in
    let run := generate_token py_str w username password token_url delete_token_url h in
    let post := token_request username password token_url in
    exists evs,
      snd run = (h ++ evs)%list
      /\ length (filter (is_token_post token_url) evs) <= 2
      /\ forall before after,
           evs = (post :: before ++ post :: after)%list ->
           after = []
           /\ forall o,
                http w (h ++ post :: before)%list
                     (mkRequest POST token_url (username, password)) =
                  Answered (Json (JObj o)) ->
                dict_get "error" o <> None ->
                fst run = Ret (JBool false).
Proof.
  intros py_str w u pw p h t d run post.
  assert (Hpost : is_token_post t post = true) by apply String.eqb_refl.
  pose proof (between_posts py_str p u pw) as Hmid. fold t d in Hmid.
  destruct (generate_token_shape py_str w u pw t d h)
    as [[r E] | [(vs & e & E) | [vs E]]]; fold run in E; rewrite E; cbn [fst snd].
  - exists [post]. split; [reflexivity|]. split.
    + rewrite (filter_cons_true _ _ _ Hpost). cbn. lia.
    + intros before after H. injection H as H. destruct before; discriminate.
  - eexists. split; [reflexivity|]. split.
    + fold post. rewrite (filter_cons_true _ _ _ Hpost), (filter_none _ _ (Hmid vs)).
      cbn. lia.
    + intros before after H. injection H as H.
      exfalso. exact (no_split _ _ _ _ _ Hpost (Hmid vs) H).
  - eexists. split; [reflexivity|]. split.
    + fold post. rewrite (filter_cons_true _ _ _ Hpost).
      rewrite app_comm_cons, filter_app, (filter_none _ _ (Hmid vs)).
      rewrite (filter_cons_true _ _ _ Hpost). cbn. lia.
    + intros before after H. injection H as H. rewrite app_comm_cons in H.
      destruct (split_at_last _ _ _ _ _ Hpost (Hmid vs) H) as [-> ->].
      split; [reflexivity|]. intros o Hretry Herr.
      fold post. rewrite Hretry. unfold retry_outcome, read_retry.
      cbn [answered json_loads keys].
      rewrite key_in_keys. destruct (dict_get "error" o); [reflexivity | congruence].
Qed.

(** [handle_token_error] on a listing of objects whose revoke requests are
    answered. *)
Lemma handle_token_error_objects py_str w token_data username password token_url
    delete_token_url h objs :
  http w h (mkRequest GET (token_url ++ "s") (username, password)) =
    Answered (Json (JArr (map JObj objs))) ->
  revokes_answered_from py_str w username password delete_token_url
    (h ++ [list_request username password token_url])%list (listed_access_tokens objs) ->
  let h2 := (h ++ list_request username password token_url
               :: map (revoke_request py_str username password delete_token_url)
                      (listed_access_tokens objs))%list in
  handle_token_error py_str w token_data username password token_url delete_token_url h =
    (retry_outcome (http w h2 (mkRequest POST token_url (username, password))),
     (h2 ++ [token_request username password token_url])%list).
Proof.
  intros Hget Hans h2.
  rewrite handle_token_error_run. cbn zeta. rewrite Hget.
  cbn [response_json answered json_loads iterate].
  rewrite (revoke_loop_objects _ _ _ _ _ _ _ Hans). unfold h2.
  rewrite <- !app_assoc. reflexivity.
Qed.

Lemma revokes_answered_from_any py_str w username password delete_token_url h vs :
  revokes_answered delete_token_url w ->
  revokes_answered_from py_str w username password delete_token_url h vs.
Proof.
  intros H before v after _. apply H.
  apply (revoke_request_is_revoke py_str username password delete_token_url v).
Qed.

(** C9, amended.  Take two worlds that answer every request alike except,
    possibly, the revoke requests, and in which every revoke request is
    answered (the call of [requests.post] returns).  Then
    [handle_token_error] runs the same in both: it returns the same value or
    raises the same exception, after the same requests.  And when the
    listing is an array of token objects, both runs send the retried POST to
    the token endpoint after the revoke requests, as their last request. *)
Theorem handle_token_error_ignores_answered_revokes :
  forall py_str w1 w2 token_data username password p h,
    let token_url := fst (select_urls p) in
    let delete_token_url := snd (select_urls p) in
    same_but_revoke delete_token_url w1 w2 ->
    revokes_answered delete_token_url w1 ->
    revokes_answered delete_token_url w2 ->
    handle_token_error py_str w1 token_data username password token_url delete_token_url h =
    handle_token_error py_str w2 token_data username password token_url delete_token_url h
    /\ forall objs,
         http w1 h (mkRequest GET (token_url ++ "s") (username, password)) =
           Answered (Json (JArr (map JObj objs))) ->
         snd (handle_token_error py_str w2 token_data username password
                token_url delete_token_url h) =
           (h ++ list_request username password token_url
              :: map (revoke_request py_str username password delete_token_url)
                     (listed_access_tokens objs)
              ++ [token_request username password token_url])%list.
Proof.
  intros py_str w1 w2 td u pw p h t d Hsame Hans1 Hans2.
  split.
  - rewrite !handle_token_error_run. cbn zeta.
    rewrite (Hsame h (mkRequest GET (t ++ "s") (u, pw)) eq_refl).
    destruct (response_json _) as [listed|e]; [|reflexivity].
    destruct (iterate listed) as [tokens|e]; [|reflexivity].
    rewrite (revoke_loop_any_world py_str u pw d w1 w2 tokens _ Hans1 Hans2).
    destruct (for_each _ tokens _) as [[[]|e] h2]; [|reflexivity].
    rewrite (Hsame h2 (mkRequest POST t (u, pw)) (token_post_not_revoke p u pw)).
    reflexivity.
  - intros objs Hget.
    rewrite (Hsame h (mkRequest GET (t ++ "s") (u, pw)) eq_refl) in Hget.
    rewrite (handle_token_error_objects py_str w2 td u pw t d h objs Hget
               (revokes_answered_from_any _ _ _ _ _ _ _ Hans2)).
    cbn [snd]. rewrite <- app_assoc. reflexivity.
Qed.

(** ** The handler's collaborators *)

Ltac emits_step :=
  first [ apply emits_ret | apply emits_raise | apply emits_lift
        | apply emits_except | apply emits_bind | apply emits_for_each ].

Lemma get_edl_creds_emits (P : call -> Prop) w :
  (forall name, P (SsmGetParameter name true)) -> emits P (get_edl_creds w).
Proof.
  intros HP. unfold get_edl_creds.
  repeat first [ emits_step | apply emits_perform; apply HP | intro ].
Qed.

Lemma store_token_emits (P : call -> Prop) w token p :
  (forall key_id, P (KmsDescribeKey key_id)) ->
  (forall key, P (SsmPutParameter
                    (mkPut (p ++ "-edl-token") "Temporary EDL bearer token" token
                           "SecureString" key true "Standard"))) ->
  emits P (store_token w token p).
Proof.
  intros Hkms Hput. unfold store_token.
  repeat first [ emits_step | apply emits_perform; first [apply Hkms | apply Hput] | intro ].
Qed.

Lemma publish_event_emits (P : call -> Prop) w ty descr data :
  P SnsListTopics -> (forall arn msg subj, P (SnsPublish arn msg subj)) ->
  emits P (publish_event w ty descr data).
Proof.
  intros Hlist Hpub. unfold publish_event, sys_exit.
  apply emits_bind; [repeat first [emits_step | apply emits_perform; exact Hlist | intro]|].
  intros topics. destruct (find_topic_arn topics);
    repeat first [ emits_step | apply emits_perform; apply Hpub | intro ].
Qed.

Lemma generate_token_emits (P : call -> Prop) py_str w username password token_url
    delete_token_url :
  P (token_request username password token_url) ->
  P (list_request username password token_url) ->
  (forall v, P (revoke_request py_str username password delete_token_url v)) ->
  emits P (generate_token py_str w username password token_url delete_token_url).
Proof.
  intros Hpost Hget Hrev h.
  assert (Hmid : forall vs,
             Forall P (map (revoke_request py_str username password delete_token_url) vs)).
  { intros vs. apply Forall_map, Forall_forall. intros v _. apply Hrev. }
  destruct (generate_token_shape py_str w username password token_url delete_token_url h)
    as [[r E] | [(vs & e & E) | [vs E]]]; rewrite E; eexists; (split; [reflexivity|]).
  - repeat constructor; assumption.
  - repeat (constructor; try assumption). apply Hmid.
  - repeat (constructor; try assumption). apply Forall_app. split; [apply Hmid|].
    repeat constructor; assumption.
Qed.

Lemma token_handler_emits (P : call -> Prop) py_str w ev :
  (forall name, P (SsmGetParameter name true)) ->
  (forall key_id, P (KmsDescribeKey key_id)) ->
  (forall token key,
      P (SsmPutParameter
           (mkPut (prefix ev ++ "-edl-token") "Temporary EDL bearer token" token
                  "SecureString" key true "Standard"))) ->
  P SnsListTopics ->
  (forall arn msg subj, P (SnsPublish arn msg subj)) ->
  (forall username password,
      P (token_request username password (fst (select_urls (prefix ev))))
      /\ P (list_request username password (fst (select_urls (prefix ev))))
      /\ forall v, P (revoke_request py_str username password
                        (snd (select_urls (prefix ev))) v)) ->
  emits P (token_handler py_str w ev).
Proof.
  intros Hget Hkms Hput Hlist Hpub Hhttp. unfold token_handler.
  destruct (select_urls (prefix ev)) as [t d] eqn:E. cbn [fst snd] in Hhttp.
  apply emits_except.
  - apply emits_bind; [apply get_edl_creds_emits; assumption|].
    intros [u pw]. destruct (Hhttp u pw) as (H1 & H2 & H3).
    apply emits_bind; [apply generate_token_emits; assumption|].
    intros token.
    apply emits_bind; [apply store_token_emits; [assumption | apply Hput]|].
    intros _. destruct (negb (truthy token)); [|apply emits_ret].
    apply emits_bind; [|intros; apply emits_raise].
    apply publish_event_emits; assumption.
  - intros msg. apply emits_bind; [|intros; apply emits_raise].
    apply publish_event_emits; assumption.
Qed.

(** ** Routing by the prefix's suffix *)

(** A URL is under at most one of the two bases. *)
Lemma bases_disjoint u :
  String.prefix UAT_BASE u = true -> String.prefix OPS_BASE u = false.
Proof. intros H. destruct (prefix_split _ _ H) as [back ->]. reflexivity. Qed.

Example select_urls_foo_sit :
  select_urls "foo-sit" = (UAT_BASE ++ "api/users/token",
                           UAT_BASE ++ "api/users/revoke_token?token").
Proof. reflexivity. Qed.

Example select_urls_foo_uat :
  select_urls "foo-uat" = (UAT_BASE ++ "api/users/token",
                           UAT_BASE ++ "api/users/revoke_token?token").
Proof. reflexivity. Qed.

Example select_urls_foo_ops :
  select_urls "foo-ops" = (OPS_BASE ++ "api/users/token",
                           OPS_BASE ++ "api/users/revoke_token?token").
Proof. reflexivity. Qed.

Example select_urls_foo :
  select_urls "foo" = (OPS_BASE ++ "api/users/token",
                       OPS_BASE ++ "api/users/revoke_token?token").
Proof. reflexivity. Qed.

(** C5.  Let [base] be the non-production (UAT) base URL when the prefix ends
    in [-sit] or [-uat], and the production base URL for any other prefix.
    Then the token and revoke endpoints the handler chooses are the ones
    under [base], and every HTTP request of the whole invocation (token POST,
    listing GET, revoke POST) goes to a URL under [base]. *)
Theorem token_handler_routes_by_suffix :
  forall py_str w p h,
    let base := if endswith p "-sit" || endswith p "-uat" then UAT_BASE else OPS_BASE in
    select_urls p = (base ++ "api/users/token", base ++ "api/users/revoke_token?token")
    /\ exists evs,
         snd (token_handler py_str w (mkEvent p) h) = (h ++ evs)%list
         /\ Forall (routed_to base) evs.
Proof.
  intros py_str w p h base. split.
  - unfold select_urls, base. destruct (_ || _); reflexivity.
  - apply token_handler_emits; try (intros; exact I).
    intros u pw. cbn [prefix]. unfold select_urls, base.
    destruct (_ || _); repeat split; intros; reflexivity.
Qed.

(** ** Credentials, storage and notification, call by call *)

Lemma get_edl_creds_run w h :
  get_edl_creds w h =
  let get_user := SsmGetParameter "generate-edl-username" true in
  let get_pass := SsmGetParameter "generate-edl-password" true in
  match ssm_get_parameter w h "generate-edl-username" with
  | Raise e => (Raise e, (h ++ [get_user])%list)
  | Ret username =>
      match ssm_get_parameter w (h ++ [get_user])%list "generate-edl-password" with
      | Raise e => (Raise e, (h ++ [get_user; get_pass])%list)
      | Ret password => (Ret (username, password), (h ++ [get_user; get_pass])%list)
      end
  end.
Proof.
  unfold get_edl_creds, except_ClientError, bind, perform, ret, raise. cbn zeta.
  destruct (ssm_get_parameter w h _) as [u|e]; [|destruct e; reflexivity].
  rewrite <- app_assoc. cbn [app].
  destruct (ssm_get_parameter w _ _) as [pw|e]; [|destruct e]; reflexivity.
Qed.

Lemma store_token_run w token p h :
  store_token w token p h =
  let describe := KmsDescribeKey "alias/aws/ssm" in
  match kms_describe_key w h "alias/aws/ssm" with
  | Raise e => (Raise e, (h ++ [describe])%list)
  | Ret key =>
      let args := mkPut (p ++ "-edl-token") "Temporary EDL bearer token" token
                        "SecureString" key true "Standard" in
      (ssm_put_parameter w (h ++ [describe])%list args,
       (h ++ [describe; SsmPutParameter args])%list)
  end.
Proof.
  unfold store_token, except_ClientError, bind, perform, raise. cbn zeta.
  destruct (kms_describe_key w h _) as [key|e]; [|destruct e; reflexivity].
  rewrite <- app_assoc. cbn [app].
  destruct (ssm_put_parameter w _ _) as [[]|e]; [|destruct e]; reflexivity.
Qed.

Lemma publish_event_run w ty descr data h :
  publish_event w ty descr data h =
  let h1 := (h ++ [SnsListTopics])%list in
  let subject := "Generate Token Creator Lambda Failure" in
  let message := compose_message w ty descr data in
  match sns_list_topics w h with
  | Raise (ClientError _) => (Raise (SystemExit 1), h1)
  | Raise e => (Raise e, h1)
  | Ret topics =>
      match find_topic_arn topics with
      | None => (Raise (UnboundLocalError "topic_arn"), h1)
      | Some arn =>
          (match sns_publish w h1 arn message subject with
           | Raise (ClientError _) => Raise (SystemExit 1)
           | r => r
           end,
           (h ++ [SnsListTopics; SnsPublish arn message subject])%list)
      end
  end.
Proof.
  unfold publish_event, except_ClientError, bind, perform, raise, sys_exit. cbn zeta.
  destruct (sns_list_topics w h) as [topics|e]; [|destruct e; reflexivity].
  destruct (find_topic_arn topics) as [arn|]; [|reflexivity].
  rewrite <- app_assoc. cbn [app].
  destruct (sns_publish w _ _ _ _) as [[]|e]; [|destruct e]; reflexivity.
Qed.

(** [topic_arn] stays unbound exactly when no topic has the marker. *)
Lemma find_topic_arn_none topics :
  find_topic_arn topics = None <->
  Forall (fun topic => contains topic TOPIC_STRING = false) topics.
Proof.
  unfold find_topic_arn.
  assert (G : forall acc,
             fold_left (fun topic_arn topic =>
                          if contains topic TOPIC_STRING then Some topic else topic_arn)
                       topics acc = None <->
             acc = None /\ Forall (fun topic => contains topic TOPIC_STRING = false) topics).
  { induction topics as [|t topics IH]; intros acc; cbn [fold_left].
    - split; [intros ->; split; [reflexivity | constructor] | intros [-> _]; reflexivity].
    - rewrite IH. destruct (contains t TOPIC_STRING) eqn:E.
      + split; [intros [? _]; discriminate | intros [_ F]; inversion F; congruence].
      + split; [intros [-> F]; split; [reflexivity | constructor; assumption]
               | intros [-> F]; inversion F; split; [reflexivity | assumption]]. }
  rewrite G. split; [intros [_ F]; exact F | intros F; split; [reflexivity | exact F]].
Qed.

(** A failing topic lookup ends the process with exit status 1. *)
Lemma publish_event_lookup_fails w ty descr data h msg :
  sns_list_topics w h = Raise (ClientError msg) ->
  publish_event w ty descr data h = (Raise (SystemExit 1), (h ++ [SnsListTopics])%list).
Proof. intros H. rewrite publish_event_run. cbn zeta. rewrite H. reflexivity. Qed.

(** A failing publish ends the process with exit status 1. *)
Lemma publish_event_publish_fails w ty descr data h topics arn msg :
  sns_list_topics w h = Ret topics ->
  find_topic_arn topics = Some arn ->
  sns_publish w (h ++ [SnsListTopics])%list arn (compose_message w ty descr data)
              "Generate Token Creator Lambda Failure" = Raise (ClientError msg) ->
  fst (publish_event w ty descr data h) = Raise (SystemExit 1).
Proof.
  intros H1 H2 H3. rewrite publish_event_run. cbn zeta. rewrite H1, H2, H3. reflexivity.
Qed.

(** With no topic that has the marker, the publish call is never made:
    reading [topic_arn] raises. *)
Lemma publish_event_unbound_topic w ty descr data h topics :
  sns_list_topics w h = Ret topics ->
  Forall (fun topic => contains topic TOPIC_STRING = false) topics ->
  publish_event w ty descr data h =
    (Raise (UnboundLocalError "topic_arn"), (h ++ [SnsListTopics])%list).
Proof.
  intros H1 H2. apply find_topic_arn_none in H2.
  rewrite publish_event_run. cbn zeta. rewrite H1, H2. reflexivity.
Qed.

(** C3.  The claim fails on the code.  With a topic list in which no topic
    has the marker, or with an empty one, [publish_event] does not end in
    [sys.exit(1)]: it raises an [UnboundLocalError] for [topic_arn], which no
    handler catches, and publishes nothing. *)
Theorem publish_event_crashes_without_topic :
  publish_event (scripted [] put_accepts (Ret [other_topic]))
      "ERROR" "Issue generating and storing bearer token." "" []
    = (Raise (UnboundLocalError "topic_arn"), [SnsListTopics])
  /\ publish_event (scripted [] put_accepts (Ret []))
      "ERROR" "Issue generating and storing bearer token." "" []
    = (Raise (UnboundLocalError "topic_arn"), [SnsListTopics]).
Proof. split; reflexivity. Qed.

(** C8.  [store_token] asks for the key of [alias/aws/ssm] and, when it gets
    one, makes exactly one write: to the name [prefix ++ "-edl-token"], with
    the token as value, type [SecureString] and [Overwrite=True].  The write
    is the same from every trace and in every world, so whatever is stored
    under the name already.  Every write of a whole invocation has that name,
    type and overwrite flag. *)
Theorem store_token_writes_prefixed_secure_string :
  forall py_str w token p h,
    snd (store_token w token p h) =
      (h ++ KmsDescribeKey "alias/aws/ssm"
         :: match kms_describe_key w h "alias/aws/ssm" with
            | Ret key =>
                [SsmPutParameter
                   {| Name := p ++ "-edl-token";
                      Description := "Temporary EDL bearer token";
                      Value := token;
                      Type_ := "SecureString";
                      KeyId := key;
                      Overwrite := true;
                      Tier := "Standard" |}]
            | Raise _ => []
            end)%list
    /\ exists evs,
         snd (token_handler py_str w (mkEvent p) h) = (h ++ evs)%list
         /\ Forall (fun c => match c with
                             | SsmPutParameter args =>
                                 Name args = p ++ "-edl-token"
                                 /\ Type_ args = "SecureString"
                                 /\ Overwrite args = true
                             | _ => True
                             end) evs.
Proof.
  intros py_str w token p h. split.
  - rewrite store_token_run. cbn zeta.
    destruct (kms_describe_key w h _); reflexivity.
  - apply token_handler_emits; try (intros; exact I).
    + intros; cbn. repeat split.
    + intros; repeat split; intros; exact I.
Qed.

(** ** The handler, end to end *)

(** The scenario of the specification: prefix [test-sit], a token endpoint
    that answers with [abc123].  The token is stored under
    [test-sit-edl-token] and the handler returns. *)
Example token_handler_test_sit :
  token_handler example_str
      (scripted [token_body "abc123"] put_validates (Ret [failure_topic]))
      (mkEvent "test-sit") []
  = (Ret tt,
     [SsmGetParameter "generate-edl-username" true;
      SsmGetParameter "generate-edl-password" true;
      Http (mkRequest POST "https://uat.urs.earthdata.nasa.gov/api/users/token"
                      ("user", "secret"));
      KmsDescribeKey "alias/aws/ssm";
      SsmPutParameter (mkPut "test-sit-edl-token" "Temporary EDL bearer token"
                             (JStr "abc123") "SecureString"
                             "1234abcd-12ab-34cd-56ef-1234567890ab" true "Standard")]).
Proof. reflexivity. Qed.

(** Where the parameter store takes [False] as a value and a topic with the
    marker exists, a failed issuance is notified and ends in exit status 1. *)
Example token_handler_failed_issue_notified :
  let w := scripted [error_body "invalid_credentials"] put_accepts (Ret [failure_topic]) in
  token_handler example_str w (mkEvent "podaac-ops") []
  = (Raise (SystemExit 1),
     [SsmGetParameter "generate-edl-username" true;
      SsmGetParameter "generate-edl-password" true;
      Http (mkRequest POST "https://urs.earthdata.nasa.gov/api/users/token"
                      ("user", "secret"));
      KmsDescribeKey "alias/aws/ssm";
      SsmPutParameter (mkPut "podaac-ops-edl-token" "Temporary EDL bearer token"
                             (JBool false) "SecureString"
                             "1234abcd-12ab-34cd-56ef-1234567890ab" true "Standard");
      SnsListTopics;
      SnsPublish failure_topic
        (compose_message w "ERROR" "Issue generating and storing bearer token." "")
        "Generate Token Creator Lambda Failure"]).
Proof. reflexivity. Qed.

(** C1.  The claim fails on the code, in two ways.  [generate_token] returns
    [False] in both runs below.  In the first, [store_token] is called with
    [False] before the handler looks at the token, the parameter store's
    client refuses a value that is not a string with an exception that is not
    a [ClientError], and the handler ends with that exception: no failure
    event reaches the notifier, and there is no [sys.exit(1)].  In the second
    the write goes through and the notifier is called, but no topic has the
    marker, and the handler ends with the notifier's [UnboundLocalError]
    instead of exit status 1. *)
Theorem token_handler_failed_issue_unnotified :
  let w1 := scripted [error_body "invalid_credentials"] put_validates (Ret [failure_topic]) in
  let w2 := scripted [error_body "invalid_credentials"] put_accepts (Ret [other_topic]) in
  let issued :=
    [SsmGetParameter "generate-edl-username" true;
     SsmGetParameter "generate-edl-password" true;
     Http (mkRequest POST "https://urs.earthdata.nasa.gov/api/users/token"
                     ("user", "secret"));
     KmsDescribeKey "alias/aws/ssm";
     SsmPutParameter (mkPut "podaac-ops-edl-token" "Temporary EDL bearer token"
                            (JBool false) "SecureString"
                            "1234abcd-12ab-34cd-56ef-1234567890ab" true "Standard")] in
  fst (generate_token example_str w1 "user" "secret"
         (fst (select_urls "podaac-ops")) (snd (select_urls "podaac-ops"))
         [SsmGetParameter "generate-edl-username" true;
          SsmGetParameter "generate-edl-password" true]) = Ret (JBool false)
  /\ token_handler example_str w1 (mkEvent "podaac-ops") []
     = (Raise (BotoCoreError "ParamValidationError"), issued)
  /\ token_handler example_str w2 (mkEvent "podaac-ops") []
     = (Raise (UnboundLocalError "topic_arn"), (issued ++ [SnsListTopics])%list).
Proof. repeat split; reflexivity. Qed.

(** C10.  Let the credentials be read, and let the first POST be answered
    with an object that has neither an [error] nor an [access_token] key.
    Then [generate_token] does not return [False]: it raises
    [KeyError('access_token')].  The handler catches only [ClientError], so
    the invocation ends with that [KeyError] right after the POST: nothing is
    stored, and the notifier is never called. *)
Theorem token_handler_missing_access_token :
  forall py_str w ev h username password o,
    let get_user := SsmGetParameter "generate-edl-username" true in
    let get_pass := SsmGetParameter "generate-edl-password" true in
    let token_url := fst (select_urls (prefix ev)) in
    let delete_token_url := snd (select_urls (prefix ev)) in
    let h2 := (h ++ [get_user; get_pass])%list in
    ssm_get_parameter w h "generate-edl-username" = Ret username ->
    ssm_get_parameter w (h ++ [get_user])%list "generate-edl-password" = Ret password ->
    http w h2 (mkRequest POST token_url (username, password)) = Answered (Json (JObj o)) ->
    dict_get "error" o = None ->
    dict_get "access_token" o = None ->
    generate_token py_str w username password token_url delete_token_url h2
      = (Raise (KeyError "access_token"),
         (h2 ++ [token_request username password token_url])%list)
    /\ token_handler py_str w ev h
      = (Raise (KeyError "access_token"),
         (h2 ++ [token_request username password token_url])%list).
Proof.
  intros py_str w ev h u pw o get_user get_pass t d h2 Hu Hp Hpost Herr Htok.
  assert (G : generate_token py_str w u pw t d h2 =
              (Raise (KeyError "access_token"), (h2 ++ [token_request u pw t])%list)).
  { rewrite generate_token_run. cbn zeta. rewrite Hpost.
    cbn [response_json answered json_loads keys subscript].
    rewrite key_in_keys, Herr, Htok. reflexivity. }
  split; [exact G|].
  unfold token_handler. fold t d. rewrite (surjective_pairing (select_urls (prefix ev))).
  fold t d. unfold except_ClientError, bind.
  rewrite get_edl_creds_run. cbn zeta. fold get_user. rewrite Hu, Hp.
  fold get_pass h2. rewrite G. reflexivity.
Qed.

(** ** The theorems at work on explicit runs *)

Lemma generate_token_first_post_token_witness :
  generate_token example_str
      (scripted [token_body "abc123"] put_accepts (Ret [failure_topic]))
      "user" "secret" (fst (select_urls "test-sit")) (snd (select_urls "test-sit")) []
  = (Ret (JStr "abc123"),
     [token_request "user" "secret" "https://uat.urs.earthdata.nasa.gov/api/users/token"]).
Proof.
  apply (generate_token_first_post_token example_str
           (scripted [token_body "abc123"] put_accepts (Ret [failure_topic]))
           "user" "secret" (fst (select_urls "test-sit")) (snd (select_urls "test-sit")) []
           [("access_token", JStr "abc123"); ("token_type", JStr "Bearer");
            ("expiration_date", JStr "12/31/2026")] "abc123");
    reflexivity.
Defined.

Lemma generate_token_other_error_witness :
  generate_token example_str
      (scripted [error_body "invalid_credentials"] put_accepts (Ret [failure_topic]))
      "user" "secret" (fst (select_urls "foo")) (snd (select_urls "foo")) []
  = (Ret (JBool false),
     [token_request "user" "secret" "https://urs.earthdata.nasa.gov/api/users/token"]).
Proof.
  apply (generate_token_other_error example_str
           (scripted [error_body "invalid_credentials"] put_accepts (Ret [failure_topic]))
           "user" "secret" (fst (select_urls "foo")) (snd (select_urls "foo")) []
           [("error", JStr "invalid_credentials")] (JStr "invalid_credentials"));
    reflexivity.
Defined.

Lemma generate_token_revokes_each_listed_witness :
  let w := scripted [error_body "max_token_limit"; listing_body ["tokA"; "tokB"];
                     NotJson; NotJson; token_body "fresh"]
                    put_accepts (Ret [failure_topic]) in
  let token_url := "https://urs.earthdata.nasa.gov/api/users/token" in
  let delete_token_url := "https://urs.earthdata.nasa.gov/api/users/revoke_token?token" in
  length [JStr "tokA"; JStr "tokB"] = 2
  /\ snd (generate_token example_str w "user" "secret" token_url delete_token_url [])
     = [Http (mkRequest POST token_url ("user", "secret"));
        Http (mkRequest GET (token_url ++ "s") ("user", "secret"));
        Http (mkRequest POST (delete_token_url ++ "=tokA") ("user", "secret"));
        Http (mkRequest POST (delete_token_url ++ "=tokB") ("user", "secret"));
        Http (mkRequest POST token_url ("user", "secret"))].
Proof.
  intros w token_url delete_token_url.
  apply (generate_token_revokes_each_listed example_str w "user" "secret"
           token_url delete_token_url []
           [("error", JStr "max_token_limit")]
           [[("access_token", JStr "tokA"); ("expiration_date", JStr "12/31/2026")];
            [("access_token", JStr "tokB"); ("expiration_date", JStr "12/31/2026")]]
           [JStr "tokA"; JStr "tokB"]);
    try reflexivity.
  - repeat constructor.
  - intros before v after _. eexists. reflexivity.
Defined.

(** C2 as first stated fails: with the first POST answered with
    [max_token_limit] and two tokens listed, a revoke request that raises
    [ConnectionError] ends the run there.  One revoke request was sent, not
    two, and the POST was not retried. *)
Lemma generate_token_revoke_failure_counterexample :
  let t := "https://urs.earthdata.nasa.gov/api/users/token" in
  let d := "https://urs.earthdata.nasa.gov/api/users/revoke_token?token" in
  let w := fail_revokes d "ConnectionError"
             (scripted [error_body "max_token_limit"; listing_body ["tokA"; "tokB"];
                        token_body "fresh"] put_accepts (Ret [failure_topic])) in
  let objs := [[("access_token", JStr "tokA"); ("expiration_date", JStr "12/31/2026")];
               [("access_token", JStr "tokB"); ("expiration_date", JStr "12/31/2026")]] in
  http w [] (mkRequest POST t ("user", "secret")) =
    Answered (Json (JObj [("error", JStr "max_token_limit")]))
  /\ http w [token_request "user" "secret" t] (mkRequest GET (t ++ "s") ("user", "secret")) =
      Answered (Json (JArr (map JObj objs)))
  /\ Forall2 (fun obj v => dict_get "access_token" obj = Some v) objs
             [JStr "tokA"; JStr "tokB"]
  /\ generate_token example_str w "user" "secret" t d [] =
      (Raise (RequestException "ConnectionError"),
       [token_request "user" "secret" t; list_request "user" "secret" t;
        revoke_request example_str "user" "secret" d (JStr "tokA")])
  /\ snd (generate_token example_str w "user" "secret" t d []) <>
      ([token_request "user" "secret" t; list_request "user" "secret" t]
         ++ map (revoke_request example_str "user" "secret" d) [JStr "tokA"; JStr "tokB"]
         ++ [token_request "user" "secret" t])%list.
Proof.
  cbv zeta. split; [reflexivity|]. split; [reflexivity|].
  split; [repeat constructor|]. split; [reflexivity|].
  intros H. vm_compute in H. discriminate H.
Defined.

Lemma generate_token_retries_at_most_once_witness :
  fst (generate_token example_str
         (scripted [error_body "max_token_limit"; listing_body ["tokA"]; NotJson;
                    error_body "max_token_limit"] put_accepts (Ret [failure_topic]))
         "user" "secret" (fst (select_urls "foo-ops")) (snd (select_urls "foo-ops")) [])
  = Ret (JBool false).
Proof.
  destruct (generate_token_retries_at_most_once example_str
              (scripted [error_body "max_token_limit"; listing_body ["tokA"]; NotJson;
                         error_body "max_token_limit"] put_accepts (Ret [failure_topic]))
              "user" "secret" "foo-ops" []) as (evs & E & _ & H).
  cbn [app] in E.
  destruct (H [list_request "user" "secret" (fst (select_urls "foo-ops"));
               revoke_request example_str "user" "secret" (snd (select_urls "foo-ops"))
                              (JStr "tokA")] []) as [_ Hretry].
  - rewrite <- E. reflexivity.
  - apply (Hretry [("error", JStr "max_token_limit")]); [reflexivity | discriminate].
Defined.

Lemma handle_token_error_ignores_answered_revokes_witness :
  let w1 := scripted [listing_body ["tokA"]; NotJson; token_body "fresh"]
                     put_accepts (Ret [failure_topic]) in
  let d := snd (select_urls "foo-uat") in
  let w2 := answer_revokes d (error_body "invalid_token") w1 in
  handle_token_error example_str w1 JNull "user" "secret" (fst (select_urls "foo-uat")) d []
  = handle_token_error example_str w2 JNull "user" "secret" (fst (select_urls "foo-uat")) d [].
Proof.
  intros w1 d w2.
  apply (handle_token_error_ignores_answered_revokes example_str w1 w2 JNull
           "user" "secret" "foo-uat" []).
  - intros h r Hr. unfold w2, d. cbn [http answer_revokes]. rewrite Hr. reflexivity.
  - intros h r _. eexists. reflexivity.
  - intros h r Hr. unfold w2, d. cbn [http answer_revokes]. rewrite Hr.
    eexists. reflexivity.
Defined.

(** C9 as first stated fails: two worlds that differ only in how they answer
    the revoke requests, the second with a redirect loop that makes
    [requests.post] raise.  The first run revokes, retries and returns the
    new token; the second ends with the exception at the revoke request, and
    the POST is not retried. *)
Lemma handle_token_error_revoke_failure_counterexample :
  let w1 := scripted [listing_body ["tokA"]; NotJson; token_body "fresh"]
                     put_accepts (Ret [failure_topic]) in
  let t := fst (select_urls "foo-uat") in
  let d := snd (select_urls "foo-uat") in
  let w2 := fail_revokes d "TooManyRedirects" w1 in
  same_but_revoke d w1 w2
  /\ handle_token_error example_str w1 JNull "user" "secret" t d [] =
      (Ret (JStr "fresh"),
       [list_request "user" "secret" t;
        revoke_request example_str "user" "secret" d (JStr "tokA");
        token_request "user" "secret" t])
  /\ handle_token_error example_str w2 JNull "user" "secret" t d [] =
      (Raise (RequestException "TooManyRedirects"),
       [list_request "user" "secret" t;
        revoke_request example_str "user" "secret" d (JStr "tokA")])
  /\ handle_token_error example_str w1 JNull "user" "secret" t d [] <>
     handle_token_error example_str w2 JNull "user" "secret" t d [].
Proof.
  cbv zeta. split; [|split; [reflexivity | split; [reflexivity|]]].
  - intros h r Hr. cbn [http fail_revokes]. rewrite Hr. reflexivity.
  - intros H. vm_compute in H. discriminate H.
Defined.

Lemma token_handler_missing_access_token_witness :
  token_handler example_str
      (scripted [Json (JObj [("message", JStr "Service Unavailable")])]
                put_accepts (Ret [failure_topic]))
      (mkEvent "test-uat") []
  = (Raise (KeyError "access_token"),
     [SsmGetParameter "generate-edl-username" true;
      SsmGetParameter "generate-edl-password" true;
      Http (mkRequest POST "https://uat.urs.earthdata.nasa.gov/api/users/token"
                      ("user", "secret"))]).
Proof.
  apply (token_handler_missing_access_token example_str
           (scripted [Json (JObj [("message", JStr "Service Unavailable")])]
                     put_accepts (Ret [failure_topic]))
           (mkEvent "test-uat") [] "user" "secret"
           [("message", JStr "Service Unavailable")]);
    reflexivity.
Defined.

(** ** Further properties of the token issuer *)

Lemma read_retry_ret c v :
  read_retry c = Ret v ->
  v = JBool false
  \/ exists o, c = Json (JObj o)
               /\ dict_get "error" o = None
               /\ dict_get "access_token" o = Some v.
Proof.
  unfold read_retry. destruct c as [td|]; [|discriminate]. cbn [json_loads].
  destruct td; try discriminate. cbn [keys subscript]. rewrite key_in_keys.
  destruct (dict_get "error" o) eqn:Eerr.
  - intros H. injection H as <-. left. reflexivity.
  - destruct (dict_get "access_token" o) eqn:Etok; [|discriminate].
    intros H. injection H as <-. right. exists o. repeat split; assumption.
Qed.

Lemma eq_str_true v s : eq_str v s = true -> v = JStr s.
Proof.
  destruct v; try discriminate. cbn. intros H. apply String.eqb_eq in H. congruence.
Qed.

(** The loop stops at the first element that is not an object; the revoke
    requests for the objects before it are taken to be answered. *)
Lemma revoke_loop_stops py_str username password delete_token_url w objs bad rest h :
  is_object bad = false ->
  revokes_answered_from py_str w username password delete_token_url h
    (listed_access_tokens objs) ->
  for_each (revoke_token py_str w username password delete_token_url)
           (map JObj objs ++ bad :: rest)%list h =
    (Raise AttributeError,
     (h ++ map (revoke_request py_str username password delete_token_url)
             (listed_access_tokens objs))%list).
Proof.
  intros Hbad. revert h. induction objs as [|o objs IH]; intros h Hans.
  - cbn [map app for_each listed_access_tokens]. unfold bind. rewrite revoke_token_run.
    rewrite app_nil_r. destruct bad; try reflexivity. discriminate.
  - cbn [map app for_each listed_access_tokens] in *. unfold bind. rewrite revoke_token_run.
    destruct (dict_get "access_token" o) as [v|]; [|rewrite (IH h Hans); reflexivity].
    destruct (revokes_answered_from_cons _ _ _ _ _ _ _ _ Hans) as [[c ->] Hrest].
    rewrite (IH _ Hrest), <- app_assoc. reflexivity.
Qed.

(** The loop stops at the first revoke request that fails. *)
Lemma revoke_loop_fails py_str username password delete_token_url w objs before v after
    error h :
  listed_access_tokens objs = (before ++ v :: after)%list ->
  revokes_answered_from py_str w username password delete_token_url h before ->
  http w (h ++ map (revoke_request py_str username password delete_token_url) before)%list
       (mkRequest POST (delete_token_url ++ "=" ++ format_value py_str v)
                  (username, password)) = Failed error ->
  for_each (revoke_token py_str w username password delete_token_url) (map JObj objs) h =
    (Raise (RequestException error),
     (h ++ map (revoke_request py_str username password delete_token_url)
             (before ++ [v]))%list).
Proof.
  revert before h. induction objs as [|o objs IH]; intros before h E Hans Hfail.
  - destruct before; discriminate.
  - cbn [map for_each listed_access_tokens] in *. unfold bind. rewrite revoke_token_run.
    destruct (dict_get "access_token" o) as [x|]; [|apply (IH before h E Hans Hfail)].
    destruct before as [|b before]; cbn [app map] in *.
    + injection E as -> E. rewrite app_nil_r in Hfail. rewrite Hfail. reflexivity.
    + injection E as -> E.
      destruct (revokes_answered_from_cons _ _ _ _ _ _ _ _ Hans) as [[c ->] Hrest].
      rewrite (IH before (h ++ [revoke_request py_str username password delete_token_url b])%list
                 E Hrest).
      * rewrite <- app_assoc. reflexivity.
      * rewrite <- app_assoc. exact Hfail.
Qed.

Lemma retry_outcome_ret a v :
  retry_outcome a = Ret v ->
  v = JBool false
  \/ exists o, a = Answered (Json (JObj o))
               /\ dict_get "error" o = None
               /\ dict_get "access_token" o = Some v.
Proof.
  unfold retry_outcome. destruct a as [c|error]; cbn [answered]; [|discriminate].
  intros H. destruct (read_retry_ret _ _ H) as [-> | (o & -> & E1 & E2)].
  - left. reflexivity.
  - right. exists o. repeat split; assumption.
Qed.

(** X2.  Whatever [generate_token] returns is [False] or the [access_token]
    of the response to its last POST to the token endpoint, a response that
    is an object without an [error] key. *)
Theorem generate_token_result_from_last_response :
  forall py_str w username password token_url delete_token_url h v,
    fst (generate_token py_str w username password token_url delete_token_url h) = Ret v ->
    v = JBool false
    \/ exists before o,
         snd (generate_token py_str w username password token_url delete_token_url h) =
           (before ++ [token_request username password token_url])%list
         /\ http w before (mkRequest POST token_url (username, password)) =
              Answered (Json (JObj o))
         /\ dict_get "error" o = None
         /\ dict_get "access_token" o = Some v.
Proof.
  intros py_str w u pw t d h v.
  rewrite generate_token_run. cbn zeta.
  destruct (http w h (mkRequest POST t (u, pw))) as [[td|]|error] eqn:Epost;
    cbn [response_json answered json_loads]; try discriminate.
  destruct td; try discriminate. cbn [keys subscript].
  rewrite key_in_keys. destruct (dict_get "error" o) as [err|] eqn:Eerr.
  - destruct (eq_str err "max_token_limit"); [|intros H; injection H as <-; left; reflexivity].
    rewrite handle_token_error_run. cbn zeta.
    destruct (response_json _) as [listed|e]; [|discriminate].
    destruct (iterate listed) as [tokens|e]; [|discriminate].
    destruct (for_each _ tokens _) as [[[]|e] h2]; [|discriminate].
    cbn [fst snd]. intros H. destruct (retry_outcome_ret _ _ H) as [->|(o' & E & E1 & E2)].
    + left. reflexivity.
    + right. exists h2, o'. repeat split; assumption.
  - destruct (dict_get "access_token" o) as [tok|] eqn:Etok; [|discriminate].
    cbn [fst snd]. intros H. injection H as <-. right. exists h, o.
    repeat split; assumption.
Qed.

(** X3.  [generate_token] sends something after its first POST only when that
    POST was answered with an object whose [error] is ["max_token_limit"]:
    without that answer there is no listing, no revoke and no retry. *)
Theorem generate_token_goes_on_only_at_max_token_limit :
  forall py_str w username password token_url delete_token_url h,
    snd (generate_token py_str w username password token_url delete_token_url h) <>
      (h ++ [token_request username password token_url])%list ->
    exists o,
      http w h (mkRequest POST token_url (username, password)) = Answered (Json (JObj o))
      /\ dict_get "error" o = Some (JStr "max_token_limit").
Proof.
  intros py_str w u pw t d h.
  rewrite generate_token_run. cbn zeta.
  destruct (http w h (mkRequest POST t (u, pw))) as [[td|]|error] eqn:Epost;
    cbn [response_json answered json_loads];
    try (intros H; exfalso; apply H; reflexivity).
  destruct td; try (intros H; exfalso; apply H; reflexivity).
  cbn [keys subscript]. rewrite key_in_keys.
  destruct (dict_get "error" o) as [err|] eqn:Eerr;
    [|intros H; exfalso; apply H; reflexivity].
  destruct (eq_str err "max_token_limit") eqn:Elim;
    [|intros H; exfalso; apply H; reflexivity].
  intros _. exists o. apply eq_str_true in Elim. subst err. split; [reflexivity | assumption].
Qed.

(** X4.  When the listing is an array of objects and each revoke request,
    when it is sent, is answered, [handle_token_error] revokes exactly the
    listed objects that have an [access_token], in order, passes over the
    others without a request, and then sends the retried POST, whose outcome
    decides the result. *)
Theorem handle_token_error_passes_over_tokens_without_access_token :
  forall py_str w token_data username password token_url delete_token_url h objs,
    http w h (mkRequest GET (token_url ++ "s") (username, password)) =
      Answered (Json (JArr (map JObj objs))) ->
    revokes_answered_from py_str w username password delete_token_url
      (h ++ [list_request username password token_url])%list (listed_access_tokens objs) ->
    let h2 := (h ++ list_request username password token_url
                 :: map (revoke_request py_str username password delete_token_url)
                        (listed_access_tokens objs))%list in
    handle_token_error py_str w token_data username password token_url delete_token_url h =
      (retry_outcome (http w h2 (mkRequest POST token_url (username, password))),
       (h2 ++ [token_request username password token_url])%list).
Proof.
  intros py_str w td u pw t d h objs Hget Hans.
  exact (handle_token_error_objects py_str w td u pw t d h objs Hget Hans).
Qed.

(** X5.  When the listing is an array whose first element that is not an
    object comes after some objects, and the revoke requests for those
    objects are answered, [handle_token_error] revokes their tokens, then
    raises [AttributeError]: the tokens after it are not revoked and the
    retried POST is never sent. *)
Theorem handle_token_error_stops_at_non_object :
  forall py_str w token_data username password token_url delete_token_url h objs bad rest,
    http w h (mkRequest GET (token_url ++ "s") (username, password)) =
      Answered (Json (JArr (map JObj objs ++ bad :: rest))) ->
    is_object bad = false ->
    revokes_answered_from py_str w username password delete_token_url
      (h ++ [list_request username password token_url])%list (listed_access_tokens objs) ->
    handle_token_error py_str w token_data username password token_url delete_token_url h =
      (Raise AttributeError,
       (h ++ list_request username password token_url
          :: map (revoke_request py_str username password delete_token_url)
                 (listed_access_tokens objs))%list).
Proof.
  intros py_str w td u pw t d h objs bad rest Hget Hbad Hans.
  rewrite handle_token_error_run. cbn zeta. rewrite Hget.
  cbn [response_json answered json_loads iterate].
  rewrite (revoke_loop_stops _ _ _ _ _ _ _ _ _ Hbad Hans). rewrite <- !app_assoc.
  reflexivity.
Qed.

(** X6.  A listing that is JSON but neither an array nor an empty object nor
    an empty string (an error object, say, or [null]) makes
    [handle_token_error] raise right after the GET, an [AttributeError] or a
    [TypeError]: nothing is revoked and the POST is not retried. *)
Theorem handle_token_error_listing_not_an_array :
  forall py_str w token_data username password token_url delete_token_url h listed,
    http w h (mkRequest GET (token_url ++ "s") (username, password)) =
      Answered (Json listed) ->
    (forall l, listed <> JArr l) ->
    listed <> JObj [] ->
    listed <> JStr "" ->
    exists e,
      (e = AttributeError \/ e = TypeError)
      /\ handle_token_error py_str w token_data username password token_url
           delete_token_url h =
         (Raise e, (h ++ [list_request username password token_url])%list).
Proof.
  intros py_str w td u pw t d h listed Hget Harr Hobj Hstr.
  rewrite handle_token_error_run. cbn zeta. rewrite Hget.
  cbn [response_json answered json_loads].
  destruct listed as [| | | |s|l|o]; cbn [iterate];
    try (exists TypeError; split; [right; reflexivity | reflexivity]).
  - destruct s as [|c s]; [congruence|].
    exists AttributeError. split; [left; reflexivity | reflexivity].
  - exfalso. exact (Harr l eq_refl).
  - destruct o as [|[k x] o]; [congruence|].
    exists AttributeError. split; [left; reflexivity | reflexivity].
Qed.

(** X20.  When the listing is an array of objects and a revoke request fails
    (the call of [requests.post] raises) after the ones before it were
    answered, [handle_token_error] ends with that exception right there:
    the tokens listed after it are not revoked and the POST is not
    retried. *)
Theorem handle_token_error_stops_at_failed_revoke :
  forall py_str w token_data username password token_url delete_token_url h objs
         before v after error,
    http w h (mkRequest GET (token_url ++ "s") (username, password)) =
      Answered (Json (JArr (map JObj objs))) ->
    listed_access_tokens objs = (before ++ v :: after)%list ->
    revokes_answered_from py_str w username password delete_token_url
      (h ++ [list_request username password token_url])%list before ->
    http w (h ++ list_request username password token_url
              :: map (revoke_request py_str username password delete_token_url) before)%list
         (mkRequest POST (delete_token_url ++ "=" ++ format_value py_str v)
                    (username, password)) = Failed error ->
    handle_token_error py_str w token_data username password token_url delete_token_url h =
      (Raise (RequestException error),
       (h ++ list_request username password token_url
          :: map (revoke_request py_str username password delete_token_url)
                 (before ++ [v]))%list).
Proof.
  intros py_str w td u pw t d h objs before v after error Hget Hsplit Hans Hfail.
  rewrite handle_token_error_run. cbn zeta. rewrite Hget.
  cbn [response_json answered json_loads iterate].
  rewrite (revoke_loop_fails py_str u pw d w objs before v after error _ Hsplit Hans).
  - rewrite <- !app_assoc. reflexivity.
  - rewrite <- app_assoc. exact Hfail.
Qed.

(** ** Further properties of the handler and its collaborators *)

Lemma revoke_loop_raises py_str username password delete_token_url w tokens h e h' :
  for_each (revoke_token py_str w username password delete_token_url) tokens h
    = (Raise e, h') ->
  is_read_error e = true.
Proof.
  revert h. induction tokens as [|token tokens IH]; intros h; [discriminate|].
  cbn [for_each]. unfold bind. rewrite revoke_token_run.
  destruct token; try (intros H; injection H as <- _; reflexivity).
  destruct (dict_get "access_token" o) as [v|]; [|apply IH].
  destruct (http w h _) as [c|error]; [apply IH|].
  intros H; injection H as <- _; reflexivity.
Qed.

Lemma read_retry_raises c e : read_retry c = Raise e -> is_read_error e = true.
Proof.
  unfold read_retry. destruct c as [td|]; cbn [json_loads];
    [|intros H; injection H as <-; reflexivity].
  destruct td; cbn [keys]; try (intros H; injection H as <-; reflexivity).
  destruct (key_in "error" _); [discriminate|]. cbn [subscript].
  destruct (dict_get "access_token" o); [discriminate|].
  intros H; injection H as <-; reflexivity.
Qed.

Lemma response_json_raises a e : response_json a = Raise e -> is_read_error e = true.
Proof.
  unfold response_json. destruct a as [[v|]|error]; cbn [answered json_loads];
    [discriminate | |]; intros H; injection H as <-; reflexivity.
Qed.

Lemma retry_outcome_raises a e : retry_outcome a = Raise e -> is_read_error e = true.
Proof.
  unfold retry_outcome. destruct a as [c|error]; cbn [answered];
    [apply read_retry_raises|]. intros H; injection H as <-; reflexivity.
Qed.

(** [generate_token] raises nothing but the errors of sending a request and
    reading its response: never a [ClientError], never [SystemExit]. *)
Lemma generate_token_raises py_str w username password token_url delete_token_url h e :
  fst (generate_token py_str w username password token_url delete_token_url h) = Raise e ->
  is_read_error e = true.
Proof.
  rewrite generate_token_run. cbn zeta.
  destruct (response_json (http w h _)) as [td|e0] eqn:Ejson0;
    [|cbn [fst]; intros H; injection H as <-; exact (response_json_raises _ _ Ejson0)].
  destruct td; cbn [keys fst]; try (intros H; injection H as <-; reflexivity).
  cbn [subscript]. rewrite key_in_keys.
  destruct (dict_get "error" o) as [err|].
  - destruct (eq_str err "max_token_limit"); [|discriminate].
    rewrite handle_token_error_run. cbn zeta. clear Ejson0.
    destruct (response_json _) as [listed|e0] eqn:Ejson.
    + destruct (iterate listed) as [tokens|e0] eqn:Eiter.
      * destruct (for_each _ tokens _) as [[[]|e0] h2] eqn:Eloop; cbn [fst].
        -- apply retry_outcome_raises.
        -- intros H; injection H as <-.
           exact (revoke_loop_raises _ _ _ _ _ _ _ _ _ Eloop).
      * cbn [fst]. intros H; injection H as <-.
        destruct listed; cbn in Eiter; try discriminate; injection Eiter as <-; reflexivity.
    + cbn [fst]. intros H; injection H as <-. exact (response_json_raises _ _ Ejson).
  - cbn [fst]. destruct (dict_get "access_token" o); [discriminate|].
    intros H; injection H as <-; reflexivity.
Qed.

(** The notifier raises no [ClientError] and, followed by [sys.exit(1)],
    never returns. *)
Lemma notify_and_exit_outcome w descr h :
  (forall msg, fst (notify_and_exit w descr h) <> Raise (ClientError msg))
  /\ (forall x, fst (notify_and_exit w descr h) <> Ret x)
  /\ exists after,
       snd (notify_and_exit w descr h) = (h ++ SnsListTopics :: after)%list
       /\ Forall (fun c => is_sns c = true) after.
Proof.
  unfold notify_and_exit, bind, sys_exit, raise. rewrite publish_event_run. cbn zeta.
  destruct (sns_list_topics w h) as [topics|e].
  - destruct (find_topic_arn topics) as [arn|].
    + destruct (sns_publish w _ _ _ _) as [[]|e]; [|destruct e];
        (repeat split; [discriminate | discriminate |]);
        eexists; (split; [reflexivity | repeat constructor]).
    + repeat split; try discriminate. exists []. split; [reflexivity | constructor].
  - destruct e; (repeat split; [discriminate | discriminate |]);
      exists []; (split; [reflexivity | constructor]).
Qed.

Lemma token_handler_with_creds py_str w ev h username password :
  let get_user := SsmGetParameter "generate-edl-username" true in
  let get_pass := SsmGetParameter "generate-edl-password" true in
  ssm_get_parameter w h "generate-edl-username" = Ret username ->
  ssm_get_parameter w (h ++ [get_user])%list "generate-edl-password" = Ret password ->
  token_handler py_str w ev h =
  except_ClientError
    (token <- generate_token py_str w username password
                (fst (select_urls (prefix ev))) (snd (select_urls (prefix ev))) ;;
     store_token w token (prefix ev) ;;;
     if negb (truthy token)
     then notify_and_exit w "Issue generating and storing bearer token."
     else ret tt)
    (fun error => notify_and_exit w error)
    (h ++ [get_user; get_pass])%list.
Proof.
  intros get_user get_pass Hu Hp. unfold token_handler.
  destruct (select_urls (prefix ev)) as [t d]. cbn [fst snd].
  unfold notify_and_exit, except_ClientError, bind.
  rewrite get_edl_creds_run. cbn zeta. fold get_user. rewrite Hu, Hp. reflexivity.
Qed.

(** A run of the handler, stage by stage: credentials, issuance, storage,
    and the test of the token. *)
Lemma token_handler_run py_str w ev h :
  token_handler py_str w ev h =
  match get_edl_creds w h with
  | (Raise e, h1) =>
      match e with
      | ClientError msg => notify_and_exit w msg h1
      | _ => (Raise e, h1)
      end
  | (Ret (username, password), h2) =>
      match generate_token py_str w username password
              (fst (select_urls (prefix ev))) (snd (select_urls (prefix ev))) h2 with
      | (Raise e, h3) => (Raise e, h3)
      | (Ret token, h3) =>
          match store_token w token (prefix ev) h3 with
          | (Raise e, h4) =>
              match e with
              | ClientError msg => notify_and_exit w msg h4
              | _ => (Raise e, h4)
              end
          | (Ret _, h4) =>
              if truthy token then (Ret tt, h4)
              else notify_and_exit w "Issue generating and storing bearer token." h4
          end
      end
  end.
Proof.
  unfold token_handler. destruct (select_urls (prefix ev)) as [t d]. cbn [fst snd].
  unfold except_ClientError. unfold bind at 1.
  destruct (get_edl_creds w h) as [[[u pw]|e] h1]; [|destruct e; reflexivity].
  unfold bind at 1.
  destruct (generate_token py_str w u pw t d h1) as [[token|e] h3] eqn:Eg.
  - unfold bind at 1.
    destruct (store_token w token (prefix ev) h3) as [[[]|e] h4]; [|destruct e; reflexivity].
    destruct (truthy token); cbn [negb]; [reflexivity|].
    destruct (notify_and_exit_outcome w "Issue generating and storing bearer token." h4)
      as (Hnc & _). fold (notify_and_exit w "Issue generating and storing bearer token.").
    destruct (notify_and_exit w _ h4) as [[x|e] h5]; [reflexivity|].
    destruct e; try reflexivity. exfalso. exact (Hnc msg eq_refl).
  - pose proof (generate_token_raises py_str w u pw t d h1 e) as Hr.
    rewrite Eg in Hr. specialize (Hr eq_refl). destruct e; try discriminate; reflexivity.
Qed.

(** X1.  An exception out of [get_edl_creds] is the one the first failing
    lookup raised, re-raised unchanged; and after a failed lookup of the
    username the password is not asked for. *)
Theorem get_edl_creds_raises_first_failure :
  forall w h e,
    fst (get_edl_creds w h) = Raise e ->
    let get_user := SsmGetParameter "generate-edl-username" true in
    let get_pass := SsmGetParameter "generate-edl-password" true in
    (ssm_get_parameter w h "generate-edl-username" = Raise e
     /\ snd (get_edl_creds w h) = (h ++ [get_user])%list)
    \/ (exists username,
          ssm_get_parameter w h "generate-edl-username" = Ret username
          /\ ssm_get_parameter w (h ++ [get_user])%list "generate-edl-password" = Raise e
          /\ snd (get_edl_creds w h) = (h ++ [get_user; get_pass])%list).
Proof.
  intros w h e. rewrite get_edl_creds_run. cbn zeta.
  destruct (ssm_get_parameter w h _) as [u|e1].
  - destruct (ssm_get_parameter w _ _) as [pw|e2] eqn:E2; [discriminate|].
    cbn [fst snd]. intros H. injection H as <-. right. exists u. repeat split.
  - cbn [fst snd]. intros H. injection H as <-. left. split; reflexivity.
Qed.

(** X8.  An exception out of [store_token] is the one [describe_key] or
    [put_parameter] raised, re-raised unchanged; and after a failed
    [describe_key] nothing is written. *)
Theorem store_token_raises_first_failure :
  forall w token p h e,
    fst (store_token w token p h) = Raise e ->
    let describe := KmsDescribeKey "alias/aws/ssm" in
    (kms_describe_key w h "alias/aws/ssm" = Raise e
     /\ snd (store_token w token p h) = (h ++ [describe])%list)
    \/ (exists key,
          let args := mkPut (p ++ "-edl-token") "Temporary EDL bearer token" token
                            "SecureString" key true "Standard" in
          kms_describe_key w h "alias/aws/ssm" = Ret key
          /\ ssm_put_parameter w (h ++ [describe])%list args = Raise e
          /\ snd (store_token w token p h) = (h ++ [describe; SsmPutParameter args])%list).
Proof.
  intros w token p h e. rewrite store_token_run. cbn zeta.
  destruct (kms_describe_key w h _) as [key|e1].
  - cbn [fst snd]. intros H. right. exists key. repeat split. exact H.
  - cbn [fst snd]. intros H. injection H as <-. left. split; reflexivity.
Qed.

(** The loop over the topics, from any earlier binding of [topic_arn]. *)
Lemma fold_topic_arn topics acc arn :
  fold_left (fun topic_arn topic =>
               if contains topic TOPIC_STRING then Some topic else topic_arn)
            topics acc = Some arn <->
  (exists front back,
      topics = (front ++ arn :: back)%list
      /\ contains arn TOPIC_STRING = true
      /\ Forall (fun topic => contains topic TOPIC_STRING = false) back)
  \/ (acc = Some arn
      /\ Forall (fun topic => contains topic TOPIC_STRING = false) topics).
Proof.
  revert acc. induction topics as [|t topics IH]; intros acc; cbn [fold_left].
  - split.
    + intros ->. right. split; [reflexivity | constructor].
    + intros [(front & back & E & _) | [-> _]]; [|reflexivity].
      destruct front; discriminate.
  - rewrite IH. destruct (contains t TOPIC_STRING) eqn:Et; split.
    + intros [(front & back & -> & Hm & Hb) | [E F]].
      * left. exists (t :: front), back. repeat split; assumption.
      * injection E as ->. left. exists [], topics. repeat split; assumption.
    + intros [(front & back & E & Hm & Hb) | [_ F]].
      * destruct front as [|c front]; cbn in E; injection E as -> ->.
        -- right. split; [reflexivity | assumption].
        -- left. exists front, back. repeat split; assumption.
      * inversion F; congruence.
    + intros [(front & back & -> & Hm & Hb) | [E F]].
      * left. exists (t :: front), back. repeat split; assumption.
      * right. split; [assumption | constructor; assumption].
    + intros [(front & back & E & Hm & Hb) | [E F]].
      * destruct front as [|c front]; cbn in E; injection E as -> ->; [congruence|].
        left. exists front, back. repeat split; assumption.
      * right. split; [assumption | inversion F; assumption].
Qed.

(** X9.  The loop of [publish_event] binds [topic_arn] to the last listed
    topic whose ARN contains the marker [batch-job-failure]: earlier matches
    are overwritten. *)
Theorem find_topic_arn_last_match :
  forall topics arn,
    find_topic_arn topics = Some arn <->
    exists front back,
      topics = (front ++ arn :: back)%list
      /\ contains arn TOPIC_STRING = true
      /\ Forall (fun topic => contains topic TOPIC_STRING = false) back.
Proof.
  intros topics arn. unfold find_topic_arn. rewrite fold_topic_arn. split.
  - intros [H | [H _]]; [exact H | discriminate].
  - intros H. left. exact H.
Qed.

(** X10.  [publish_event] publishes at most once, right after the lookup,
    and only to a listed topic whose ARN contains the marker, the last such
    in the listing, with the fixed subject and the composed message. *)
Theorem publish_event_publishes_to_marked_topic :
  forall w ty descr data h evs arn msg subj,
    snd (publish_event w ty descr data h) = (h ++ evs)%list ->
    In (SnsPublish arn msg subj) evs ->
    evs = [SnsListTopics; SnsPublish arn msg subj]
    /\ subj = "Generate Token Creator Lambda Failure"
    /\ msg = compose_message w ty descr data
    /\ exists front back,
         sns_list_topics w h = Ret (front ++ arn :: back)%list
         /\ contains arn TOPIC_STRING = true
         /\ Forall (fun topic => contains topic TOPIC_STRING = false) back.
Proof.
  intros w ty descr data h evs arn msg subj. rewrite publish_event_run. cbn zeta.
  assert (Hno : evs = [SnsListTopics] -> In (SnsPublish arn msg subj) evs -> False).
  { intros -> [H | []]. discriminate. }
  destruct (sns_list_topics w h) as [topics|e].
  - destruct (find_topic_arn topics) as [arn'|] eqn:Ef.
    + cbn [snd]. intros E Hin. apply app_inv_head in E. subst evs.
      destruct Hin as [H | [H | []]]; [discriminate|]. injection H as -> <- <-.
      repeat split. unfold find_topic_arn in Ef. apply fold_topic_arn in Ef.
      destruct Ef as [(front & back & -> & Hm & Hb) | [Ef _]]; [|discriminate].
      exists front, back. repeat split; assumption.
    + cbn [snd]. intros E Hin. apply app_inv_head in E. symmetry in E.
      destruct (Hno E Hin).
  - destruct e; cbn [snd]; intros E Hin; apply app_inv_head in E; symmetry in E;
      destruct (Hno E Hin).
Qed.

Lemma find_topic_arn_some topics :
  Exists (fun topic => contains topic TOPIC_STRING = true) topics ->
  exists arn, find_topic_arn topics = Some arn.
Proof.
  intros Hex. destruct (find_topic_arn topics) as [arn|] eqn:E; [exists arn; reflexivity|].
  apply find_topic_arn_none in E. apply Exists_exists in Hex as (t & Hin & Ht).
  rewrite Forall_forall in E. rewrite (E t Hin) in Ht. discriminate.
Qed.

(** X11.  When the lookup, if it returns, lists a topic with the marker, and
    the lookup and the publish call raise nothing but [ClientError],
    [publish_event] either returns or ends in [sys.exit(1)]: no other
    exception leaves it. *)
Theorem publish_event_returns_or_exits :
  forall w ty descr data h,
    (forall e, sns_list_topics w h = Raise e -> exists m, e = ClientError m) ->
    (forall topics, sns_list_topics w h = Ret topics ->
                    Exists (fun topic => contains topic TOPIC_STRING = true) topics) ->
    (forall arn msg subj e,
        sns_publish w (h ++ [SnsListTopics])%list arn msg subj = Raise e ->
        exists m, e = ClientError m) ->
    fst (publish_event w ty descr data h) = Ret tt
    \/ fst (publish_event w ty descr data h) = Raise (SystemExit 1).
Proof.
  intros w ty descr data h Hlist Hmark Hpub. rewrite publish_event_run. cbn zeta.
  destruct (sns_list_topics w h) as [topics|e] eqn:El.
  - destruct (find_topic_arn_some topics (Hmark topics eq_refl)) as [arn ->].
    cbn [fst]. destruct (sns_publish w _ _ _ _) as [[]|e] eqn:Ep; [left; reflexivity|].
    destruct (Hpub _ _ _ _ Ep) as [m ->]. right. reflexivity.
  - destruct (Hlist e eq_refl) as [m ->]. right. reflexivity.
Qed.

Lemma notify_and_exit_emits (P : call -> Prop) w descr :
  P SnsListTopics -> (forall arn msg subj, P (SnsPublish arn msg subj)) ->
  emits P (notify_and_exit w descr).
Proof.
  intros Hlist Hpub. unfold notify_and_exit.
  apply emits_bind; [apply publish_event_emits; assumption | intros; apply emits_raise].
Qed.

(** X7.  Every HTTP request of an invocation carries, as basic
    authentication, the username and the password the parameter store
    returned. *)
Theorem token_handler_requests_carry_credentials :
  forall py_str w ev h username password,
    ssm_get_parameter w h "generate-edl-username" = Ret username ->
    ssm_get_parameter w (h ++ [SsmGetParameter "generate-edl-username" true])%list
                      "generate-edl-password" = Ret password ->
    exists evs,
      snd (token_handler py_str w ev h) = (h ++ evs)%list
      /\ Forall (fun c => match c with
                          | Http r => auth r = (username, password)
                          | _ => True
                          end) evs.
Proof.
  intros py_str w ev h u pw Hu Hp.
  rewrite (token_handler_with_creds py_str w ev h u pw Hu Hp).
  set (P := fun c => match c with Http r => auth r = (u, pw) | _ => True end).
  assert (Hrest : emits P
            (except_ClientError
               (token <- generate_token py_str w u pw
                           (fst (select_urls (prefix ev))) (snd (select_urls (prefix ev))) ;;
                store_token w token (prefix ev) ;;;
                if negb (truthy token)
                then notify_and_exit w "Issue generating and storing bearer token."
                else ret tt)
               (fun error => notify_and_exit w error))).
  { apply emits_except.
    - apply emits_bind; [apply generate_token_emits; intros; exact eq_refl|].
      intros token. apply emits_bind; [apply store_token_emits; intros; exact I|].
      intros _. destruct (negb (truthy token)); [|apply emits_ret].
      apply notify_and_exit_emits; intros; exact I.
    - intros msg. apply notify_and_exit_emits; intros; exact I. }
  destruct (Hrest (h ++ [SsmGetParameter "generate-edl-username" true;
                         SsmGetParameter "generate-edl-password" true])%list)
    as (evs & E & F).
  eexists. rewrite E, <- app_assoc. split; [reflexivity|].
  apply Forall_app. split; [repeat constructor | exact F].
Qed.

(** X12.  When the credentials are read, [generate_token] returns a token
    that counts as true, and the key lookup and the write return, the
    handler returns normally: its last two calls are the key lookup and the
    write of that token under [prefix-edl-token], and the notifier is not
    called. *)
Theorem token_handler_stores_and_returns :
  forall py_str w ev h username password token h3 key,
    let get_user := SsmGetParameter "generate-edl-username" true in
    let get_pass := SsmGetParameter "generate-edl-password" true in
    let describe := KmsDescribeKey "alias/aws/ssm" in
    let args := mkPut (prefix ev ++ "-edl-token") "Temporary EDL bearer token" token
                      "SecureString" key true "Standard" in
    ssm_get_parameter w h "generate-edl-username" = Ret username ->
    ssm_get_parameter w (h ++ [get_user])%list "generate-edl-password" = Ret password ->
    generate_token py_str w username password
      (fst (select_urls (prefix ev))) (snd (select_urls (prefix ev)))
      (h ++ [get_user; get_pass])%list = (Ret token, h3) ->
    truthy token = true ->
    kms_describe_key w h3 "alias/aws/ssm" = Ret key ->
    ssm_put_parameter w (h3 ++ [describe])%list args = Ret tt ->
    token_handler py_str w ev h = (Ret tt, (h3 ++ [describe; SsmPutParameter args])%list).
Proof.
  intros py_str w ev h u pw token h3 key get_user get_pass describe args
         Hu Hp Hg Ht Hk Hput.
  rewrite token_handler_run, get_edl_creds_run. cbn zeta.
  fold get_user. rewrite Hu, Hp. fold get_pass. rewrite Hg.
  rewrite store_token_run. cbn zeta. rewrite Hk. fold describe args. rewrite Hput, Ht.
  reflexivity.
Qed.

(** X13.  The handler returns normally only after a write that returned: the
    last call of the run is then a [put_parameter] of a value that counts as
    true, under [prefix-edl-token], and no call to the notifier was made. *)
Theorem token_handler_returns_only_after_store :
  forall py_str w ev h h',
    token_handler py_str w ev h = (Ret tt, h') ->
    exists evs args,
      h' = (h ++ evs ++ [SsmPutParameter args])%list
      /\ Name args = prefix ev ++ "-edl-token"
      /\ truthy (Value args) = true
      /\ ssm_put_parameter w (h ++ evs)%list args = Ret tt
      /\ Forall (fun c => is_sns c = false) evs.
Proof.
  intros py_str w ev h h'. rewrite token_handler_run, get_edl_creds_run. cbn zeta.
  destruct (ssm_get_parameter w h _) as [u|e].
  2:{ destruct e; try discriminate. intros H.
      destruct (notify_and_exit_outcome w msg
                  (h ++ [SsmGetParameter "generate-edl-username" true])%list)
        as (_ & Hnr & _).
      exfalso. apply (Hnr tt). rewrite H. reflexivity. }
  destruct (ssm_get_parameter w _ _) as [pw|e].
  2:{ destruct e; try discriminate. intros H.
      destruct (notify_and_exit_outcome w msg
                  (h ++ [SsmGetParameter "generate-edl-username" true;
                         SsmGetParameter "generate-edl-password" true])%list)
        as (_ & Hnr & _).
      exfalso. apply (Hnr tt). rewrite H. reflexivity. }
  set (h2 := (h ++ _)%list).
  destruct (generate_token_emits (fun c => is_sns c = false) py_str w u pw
              (fst (select_urls (prefix ev))) (snd (select_urls (prefix ev)))
              eq_refl eq_refl (fun _ => eq_refl) h2) as (evs & E & F).
  destruct (generate_token _ _ _ _ _ _ h2) as [[token|e] h3]; [|discriminate].
  cbn [snd] in E. subst h3.
  rewrite store_token_run. cbn zeta.
  destruct (kms_describe_key w _ _) as [key|e].
  2:{ destruct e; try discriminate. intros H.
      destruct (notify_and_exit_outcome w msg
                  ((h2 ++ evs) ++ [KmsDescribeKey "alias/aws/ssm"])%list) as (_ & Hnr & _).
      exfalso. apply (Hnr tt). rewrite H. reflexivity. }
  destruct (ssm_put_parameter w _ _) as [[]|e] eqn:Eput.
  2:{ destruct e; try discriminate. intros H.
      match type of H with notify_and_exit w msg ?t = _ =>
        destruct (notify_and_exit_outcome w msg t) as (_ & Hnr & _) end.
      exfalso. apply (Hnr tt). rewrite H. reflexivity. }
  destruct (truthy token) eqn:Et.
  2:{ intros H.
      match type of H with notify_and_exit w ?m ?t = _ =>
        destruct (notify_and_exit_outcome w m t) as (_ & Hnr & _) end.
      exfalso. apply (Hnr tt). rewrite H. reflexivity. }
  intros H. injection H as <-.
  exists ([SsmGetParameter "generate-edl-username" true;
           SsmGetParameter "generate-edl-password" true]
            ++ evs ++ [KmsDescribeKey "alias/aws/ssm"])%list.
  eexists. split; [|split; [|split; [|split]]].
  - unfold h2. rewrite <- !app_assoc. cbn [app]. reflexivity.
  - reflexivity.
  - exact Et.
  - rewrite <- Eput. f_equal. unfold h2. rewrite <- !app_assoc. reflexivity.
  - apply Forall_app. split; [repeat constructor|].
    apply Forall_app. split; [exact F | repeat constructor].
Qed.

(** X14.  Whatever [generate_token] returns, [False] included, is handed to
    [store_token] before the handler looks at it: once the key lookup
    returns, the next call is the write of that value. *)
Theorem token_handler_stores_whatever_is_returned :
  forall py_str w ev h username password token h3 key,
    let get_user := SsmGetParameter "generate-edl-username" true in
    let get_pass := SsmGetParameter "generate-edl-password" true in
    ssm_get_parameter w h "generate-edl-username" = Ret username ->
    ssm_get_parameter w (h ++ [get_user])%list "generate-edl-password" = Ret password ->
    generate_token py_str w username password
      (fst (select_urls (prefix ev))) (snd (select_urls (prefix ev)))
      (h ++ [get_user; get_pass])%list = (Ret token, h3) ->
    kms_describe_key w h3 "alias/aws/ssm" = Ret key ->
    exists rest,
      snd (token_handler py_str w ev h) =
        (h3 ++ [KmsDescribeKey "alias/aws/ssm";
                SsmPutParameter (mkPut (prefix ev ++ "-edl-token")
                                       "Temporary EDL bearer token" token
                                       "SecureString" key true "Standard")]
            ++ rest)%list.
Proof.
  intros py_str w ev h u pw token h3 key get_user get_pass Hu Hp Hg Hk.
  rewrite token_handler_run, get_edl_creds_run. cbn zeta.
  fold get_user. rewrite Hu, Hp. fold get_pass. rewrite Hg.
  rewrite store_token_run. cbn zeta. rewrite Hk.
  assert (Hn : forall descr t, exists rest,
               snd (notify_and_exit w descr t) = (t ++ rest)%list).
  { intros descr t. destruct (notify_and_exit_outcome w descr t) as (_ & _ & after & E & _).
    eexists. exact E. }
  destruct (ssm_put_parameter w _ _) as [[]|e].
  - destruct (truthy token).
    + exists []. rewrite app_nil_r. reflexivity.
    + destruct (Hn "Issue generating and storing bearer token."
                   (h3 ++ [KmsDescribeKey "alias/aws/ssm";
                           SsmPutParameter (mkPut (prefix ev ++ "-edl-token")
                             "Temporary EDL bearer token" token "SecureString" key true
                             "Standard")])%list) as [rest E].
      exists rest. rewrite E, <- app_assoc. reflexivity.
  - destruct e; try (exists []; rewrite app_nil_r; reflexivity).
    destruct (Hn msg (h3 ++ [KmsDescribeKey "alias/aws/ssm";
                             SsmPutParameter (mkPut (prefix ev ++ "-edl-token")
                               "Temporary EDL bearer token" token "SecureString" key true
                               "Standard")])%list) as [rest E].
    exists rest. rewrite E, <- app_assoc. reflexivity.
Qed.

(** X16.  An exception raised while the token is issued (a body that is not
    JSON, a response that is not an object, a missing [access_token]) leaves
    the handler as it is: nothing is stored and the notifier is not called. *)
Theorem token_handler_issuance_exception_escapes :
  forall py_str w ev h username password e,
    let get_user := SsmGetParameter "generate-edl-username" true in
    let get_pass := SsmGetParameter "generate-edl-password" true in
    let issue :=
      generate_token py_str w username password
        (fst (select_urls (prefix ev))) (snd (select_urls (prefix ev)))
        (h ++ [get_user; get_pass])%list in
    ssm_get_parameter w h "generate-edl-username" = Ret username ->
    ssm_get_parameter w (h ++ [get_user])%list "generate-edl-password" = Ret password ->
    fst issue = Raise e ->
    token_handler py_str w ev h = (Raise e, snd issue).
Proof.
  intros py_str w ev h u pw e get_user get_pass issue Hu Hp He.
  rewrite token_handler_run, get_edl_creds_run. cbn zeta.
  fold get_user. rewrite Hu, Hp. fold get_pass. fold issue.
  destruct issue as [[token|e'] h3]; cbn [fst snd] in *; [discriminate|].
  injection He as ->. reflexivity.
Qed.

(** X17.  When reading the credentials fails with a [ClientError], the
    handler goes straight to the notifier with the error's text and then to
    [sys.exit(1)]: it does not return normally, and after the lookups it
    calls nothing but the notification service, so no request goes to the
    token endpoint and nothing is written. *)
Theorem token_handler_credential_failure_notified :
  forall py_str w ev h msg,
    fst (get_edl_creds w h) = Raise (ClientError msg) ->
    token_handler py_str w ev h =
      (publish_event w "ERROR" msg "" ;;; sys_exit 1) (snd (get_edl_creds w h))
    /\ fst (token_handler py_str w ev h) <> Ret tt
    /\ exists after,
         snd (token_handler py_str w ev h) =
           (snd (get_edl_creds w h) ++ SnsListTopics :: after)%list
         /\ Forall (fun c => is_sns c = true) after.
Proof.
  intros py_str w ev h msg Hc. rewrite token_handler_run.
  destruct (get_edl_creds w h) as [[[u pw]|e] h1]; cbn [fst snd] in *; [discriminate|].
  injection Hc as ->.
  destruct (notify_and_exit_outcome w msg h1) as (_ & Hnr & after & E & F).
  split; [reflexivity|]. split; [apply Hnr|]. exists after. split; assumption.
Qed.

(** X18.  When the credentials are read and a token is issued but storing it
    fails with a [ClientError], the handler goes to the notifier with the
    error's text and then to [sys.exit(1)]; it does not return normally. *)
Theorem token_handler_storage_failure_notified :
  forall py_str w ev h username password token h3 msg,
    let get_user := SsmGetParameter "generate-edl-username" true in
    let get_pass := SsmGetParameter "generate-edl-password" true in
    ssm_get_parameter w h "generate-edl-username" = Ret username ->
    ssm_get_parameter w (h ++ [get_user])%list "generate-edl-password" = Ret password ->
    generate_token py_str w username password
      (fst (select_urls (prefix ev))) (snd (select_urls (prefix ev)))
      (h ++ [get_user; get_pass])%list = (Ret token, h3) ->
    fst (store_token w token (prefix ev) h3) = Raise (ClientError msg) ->
    token_handler py_str w ev h =
      (publish_event w "ERROR" msg "" ;;; sys_exit 1)
        (snd (store_token w token (prefix ev) h3))
    /\ fst (token_handler py_str w ev h) <> Ret tt.
Proof.
  intros py_str w ev h u pw token h3 msg get_user get_pass Hu Hp Hg Hs.
  rewrite token_handler_run, get_edl_creds_run. cbn zeta.
  fold get_user. rewrite Hu, Hp. fold get_pass. rewrite Hg.
  destruct (store_token w token (prefix ev) h3) as [[[]|e] h4]; cbn [fst snd] in *;
    [discriminate|].
  injection Hs as ->.
  destruct (notify_and_exit_outcome w msg h4) as (_ & Hnr & _).
  split; [reflexivity | apply Hnr].
Qed.

Lemma notify_and_exit_status w descr h code :
  aws_world w ->
  fst (notify_and_exit w descr h) = Raise (SystemExit code) -> code = 1%Z.
Proof.
  intros (_ & _ & _ & Hlist & Hpub).
  unfold notify_and_exit, bind, sys_exit, raise. rewrite publish_event_run. cbn zeta.
  specialize (Hlist h). destruct (sns_list_topics w h) as [topics|e].
  - destruct (find_topic_arn topics) as [arn|]; [|discriminate].
    match goal with |- context [sns_publish w ?t ?a ?m ?s] =>
      specialize (Hpub t a m s); destruct (sns_publish w t a m s) as [[]|e] end.
    + cbn. intros H. injection H as <-. reflexivity.
    + destruct e; try discriminate Hpub; cbn; intros H; try discriminate H.
      injection H as <-. reflexivity.
  - destruct e; try discriminate Hlist; cbn; intros H; try discriminate H.
    injection H as <-. reflexivity.
Qed.

(** X15.  In a world whose AWS calls raise nothing but the SDK's exceptions,
    an invocation that ends in [SystemExit] ends with exit status 1, and the
    notifier was called: the topic lookup is among the calls of the run. *)
Theorem token_handler_exit_status :
  forall py_str w ev h code,
    aws_world w ->
    fst (token_handler py_str w ev h) = Raise (SystemExit code) ->
    code = 1%Z
    /\ exists before after,
         snd (token_handler py_str w ev h) = (h ++ before ++ SnsListTopics :: after)%list.
Proof.
  intros py_str w ev h code Haws.
  assert (Hn : forall descr before,
             fst (notify_and_exit w descr (h ++ before)%list) = Raise (SystemExit code) ->
             code = 1%Z
             /\ exists before' after,
                  snd (notify_and_exit w descr (h ++ before)%list) =
                    (h ++ before' ++ SnsListTopics :: after)%list).
  { intros descr before H. split; [exact (notify_and_exit_status _ _ _ _ Haws H)|].
    destruct (notify_and_exit_outcome w descr (h ++ before)%list) as (_ & _ & after & E & _).
    exists before, after. rewrite E, <- app_assoc. reflexivity. }
  destruct Haws as (Hssm & Hkms & Hput & _ & _).
  rewrite token_handler_run, get_edl_creds_run. cbn zeta.
  pose proof (Hssm h "generate-edl-username") as B1.
  destruct (ssm_get_parameter w h _) as [u|e].
  2:{ destruct e; try discriminate B1; [apply Hn | discriminate]. }
  match goal with |- context [ssm_get_parameter w ?t ?n] =>
    pose proof (Hssm t n) as B2; destruct (ssm_get_parameter w t n) as [pw|e] end.
  2:{ destruct e; try discriminate B2; [apply Hn | discriminate]. }
  match goal with |- context [generate_token ?a ?b ?c ?d ?t ?dl ?hh] =>
    destruct (generate_token_emits (fun _ => True) a b c d t dl I I (fun _ => I) hh)
      as (evs & E & _);
    pose proof (generate_token_raises a b c d t dl hh) as Hr;
    destruct (generate_token a b c d t dl hh) as [[token|e] h3] end.
  2:{ cbn [fst]. intros H. injection H as ->. specialize (Hr _ eq_refl). discriminate. }
  cbn [snd] in E. subst h3. rewrite <- app_assoc.
  rewrite store_token_run. cbn zeta.
  match goal with |- context [kms_describe_key w ?t ?n] =>
    pose proof (Hkms t n) as B3; destruct (kms_describe_key w t n) as [key|e] end.
  2:{ rewrite <- app_assoc. destruct e; try discriminate B3; [apply Hn | discriminate]. }
  match goal with |- context [ssm_put_parameter w ?t ?a] =>
    pose proof (Hput t a) as B4; destruct (ssm_put_parameter w t a) as [[]|e] end.
  2:{ rewrite <- app_assoc. destruct e; try discriminate B4; [apply Hn | discriminate]. }
  rewrite <- app_assoc. destruct (truthy token); [discriminate | apply Hn].
Qed.

(** ** The further properties on explicit runs *)

Lemma get_edl_creds_raises_first_failure_witness :
  snd (get_edl_creds
         (without_credentials (scripted [] put_accepts (Ret [failure_topic]))) [])
  = [SsmGetParameter "generate-edl-username" true].
Proof.
  destruct (get_edl_creds_raises_first_failure
              (without_credentials (scripted [] put_accepts (Ret [failure_topic])))
              [] (ClientError "ParameterNotFound") eq_refl)
    as [[_ E] | (u & Hu & _)]; [exact E | discriminate Hu].
Defined.

Lemma generate_token_result_from_last_response_witness :
  let w := scripted [error_body "max_token_limit"; listing_body ["tokA"]; NotJson;
                     token_body "fresh"] put_accepts (Ret [failure_topic]) in
  let t := fst (select_urls "foo") in
  let d := snd (select_urls "foo") in
  exists before o,
    snd (generate_token example_str w "user" "secret" t d []) =
      (before ++ [token_request "user" "secret" t])%list
    /\ http w before (mkRequest POST t ("user", "secret")) = Answered (Json (JObj o))
    /\ dict_get "access_token" o = Some (JStr "fresh").
Proof.
  intros w t d.
  destruct (generate_token_result_from_last_response example_str w "user" "secret" t d []
              (JStr "fresh") eq_refl) as [H | (before & o & E & Hpost & _ & Htok)];
    [discriminate H|].
  exists before, o. repeat split; assumption.
Defined.

Lemma generate_token_goes_on_only_at_max_token_limit_witness :
  let w := scripted [error_body "max_token_limit"; listing_body ["tokA"]; NotJson;
                     token_body "fresh"] put_accepts (Ret [failure_topic]) in
  exists o,
    http w [] (mkRequest POST (fst (select_urls "foo")) ("user", "secret")) =
      Answered (Json (JObj o))
    /\ dict_get "error" o = Some (JStr "max_token_limit").
Proof.
  intros w.
  apply (generate_token_goes_on_only_at_max_token_limit example_str w "user" "secret"
           (fst (select_urls "foo")) (snd (select_urls "foo")) []).
  intros H. vm_compute in H. discriminate H.
Defined.

Lemma handle_token_error_passes_over_tokens_without_access_token_witness :
  let w := scripted [Json (JArr [JObj [("access_token", JStr "tokA")];
                                 JObj [("id", JInt 7)];
                                 JObj [("access_token", JStr "tokB")]]);
                     NotJson; NotJson; token_body "fresh"]
                    put_accepts (Ret [failure_topic]) in
  let t := fst (select_urls "foo-sit") in
  let d := snd (select_urls "foo-sit") in
  handle_token_error example_str w JNull "user" "secret" t d []
  = (Ret (JStr "fresh"),
     [list_request "user" "secret" t;
      revoke_request example_str "user" "secret" d (JStr "tokA");
      revoke_request example_str "user" "secret" d (JStr "tokB");
      token_request "user" "secret" t]).
Proof.
  intros w t d.
  apply (handle_token_error_passes_over_tokens_without_access_token example_str w JNull
           "user" "secret" t d []
           [[("access_token", JStr "tokA")]; [("id", JInt 7)];
            [("access_token", JStr "tokB")]] eq_refl).
  intros before v after _. eexists. reflexivity.
Defined.

Lemma handle_token_error_stops_at_non_object_witness :
  let w := scripted [Json (JArr [JObj [("access_token", JStr "tokA")];
                                 JStr "tokB";
                                 JObj [("access_token", JStr "tokC")]]);
                     NotJson; token_body "fresh"]
                    put_accepts (Ret [failure_topic]) in
  let t := fst (select_urls "foo-sit") in
  let d := snd (select_urls "foo-sit") in
  handle_token_error example_str w JNull "user" "secret" t d []
  = (Raise AttributeError,
     [list_request "user" "secret" t;
      revoke_request example_str "user" "secret" d (JStr "tokA")]).
Proof.
  intros w t d.
  apply (handle_token_error_stops_at_non_object example_str w JNull
           "user" "secret" t d []
           [[("access_token", JStr "tokA")]] (JStr "tokB")
           [JObj [("access_token", JStr "tokC")]] eq_refl eq_refl).
  intros before v after _. eexists. reflexivity.
Defined.

Lemma handle_token_error_stops_at_failed_revoke_witness :
  let t := fst (select_urls "foo-sit") in
  let d := snd (select_urls "foo-sit") in
  let w := fail_revokes d "Timeout"
             (scripted [listing_body ["tokA"; "tokB"]; token_body "fresh"]
                       put_accepts (Ret [failure_topic])) in
  handle_token_error example_str w JNull "user" "secret" t d []
  = (Raise (RequestException "Timeout"),
     [list_request "user" "secret" t;
      revoke_request example_str "user" "secret" d (JStr "tokA")]).
Proof.
  intros t d w.
  apply (handle_token_error_stops_at_failed_revoke example_str w JNull
           "user" "secret" t d []
           [[("access_token", JStr "tokA"); ("expiration_date", JStr "12/31/2026")];
            [("access_token", JStr "tokB"); ("expiration_date", JStr "12/31/2026")]]
           [] (JStr "tokA") [JStr "tokB"] "Timeout" eq_refl eq_refl).
  - intros before v after H. destruct before; discriminate H.
  - reflexivity.
Defined.

Lemma handle_token_error_listing_not_an_array_witness :
  let w := scripted [error_body "invalid_credentials"; token_body "fresh"]
                    put_accepts (Ret [failure_topic]) in
  let t := fst (select_urls "foo") in
  let d := snd (select_urls "foo") in
  handle_token_error example_str w JNull "user" "secret" t d []
  = (Raise AttributeError, [list_request "user" "secret" t]).
Proof.
  intros w t d.
  destruct (handle_token_error_listing_not_an_array example_str w JNull
              "user" "secret" t d [] (JObj [("error", JStr "invalid_credentials")]) eq_refl)
    as (e & _ & E).
  - intros l H. discriminate H.
  - intros H. discriminate H.
  - intros H. discriminate H.
  - rewrite E. vm_compute in E. injection E as <-. reflexivity.
Defined.

Lemma token_handler_requests_carry_credentials_witness :
  exists evs,
    snd (token_handler example_str
           (scripted [error_body "max_token_limit"; listing_body ["tokA"]; NotJson;
                      token_body "fresh"] put_accepts (Ret [failure_topic]))
           (mkEvent "foo-uat") []) = evs
    /\ Forall (fun c => match c with
                        | Http r => auth r = ("user", "secret")
                        | _ => True
                        end) evs.
Proof.
  exact (token_handler_requests_carry_credentials example_str
           (scripted [error_body "max_token_limit"; listing_body ["tokA"]; NotJson;
                      token_body "fresh"] put_accepts (Ret [failure_topic]))
           (mkEvent "foo-uat") [] "user" "secret" eq_refl eq_refl).
Defined.

Lemma store_token_raises_first_failure_witness :
  exists key,
    kms_describe_key (scripted [] put_denied (Ret [failure_topic])) []
                     "alias/aws/ssm" = Ret key
    /\ snd (store_token (scripted [] put_denied (Ret [failure_topic]))
              (JStr "abc123") "test-sit" [])
       = [KmsDescribeKey "alias/aws/ssm";
          SsmPutParameter (mkPut "test-sit-edl-token" "Temporary EDL bearer token"
                                 (JStr "abc123") "SecureString" key true "Standard")].
Proof.
  destruct (store_token_raises_first_failure
              (scripted [] put_denied (Ret [failure_topic]))
              (JStr "abc123") "test-sit" [] (ClientError "AccessDeniedException") eq_refl)
    as [[Hk _] | (key & Hk & _ & E)]; [discriminate Hk|].
  exists key. split; [exact Hk | exact E].
Defined.

Lemma publish_event_publishes_to_marked_topic_witness :
  let w := scripted [] put_accepts (Ret [failure_topic; other_topic]) in
  exists front back,
    sns_list_topics w [] = Ret (front ++ failure_topic :: back)%list
    /\ contains failure_topic TOPIC_STRING = true
    /\ Forall (fun topic => contains topic TOPIC_STRING = false) back.
Proof.
  intros w.
  destruct (publish_event_publishes_to_marked_topic w "ERROR" "no token" "" []
              [SnsListTopics;
               SnsPublish failure_topic (compose_message w "ERROR" "no token" "")
                          "Generate Token Creator Lambda Failure"]
              failure_topic (compose_message w "ERROR" "no token" "")
              "Generate Token Creator Lambda Failure" eq_refl)
    as (_ & _ & _ & H).
  - right. left. reflexivity.
  - exact H.
Defined.

Lemma publish_event_returns_or_exits_witness :
  let w := scripted [] put_accepts (Ret [other_topic; failure_topic]) in
  fst (publish_event w "ERROR" "no token" "" []) = Ret tt
  \/ fst (publish_event w "ERROR" "no token" "" []) = Raise (SystemExit 1).
Proof.
  intros w.
  apply (publish_event_returns_or_exits w "ERROR" "no token" "" []).
  - intros e H. discriminate H.
  - intros topics H. injection H as <-. right. left. reflexivity.
  - intros arn msg subj e H. discriminate H.
Defined.

Lemma token_handler_stores_and_returns_witness :
  let w := scripted [error_body "max_token_limit"; listing_body ["tokA"]; NotJson;
                     token_body "fresh"] put_validates (Ret [failure_topic]) in
  fst (token_handler example_str w (mkEvent "foo-uat") []) = Ret tt.
Proof.
  intros w.
  rewrite (token_handler_stores_and_returns example_str w (mkEvent "foo-uat") []
             "user" "secret" (JStr "fresh")
             (snd (generate_token example_str w "user" "secret"
                     (fst (select_urls "foo-uat")) (snd (select_urls "foo-uat"))
                     [SsmGetParameter "generate-edl-username" true;
                      SsmGetParameter "generate-edl-password" true]))
             "1234abcd-12ab-34cd-56ef-1234567890ab"
             eq_refl eq_refl eq_refl eq_refl eq_refl eq_refl).
  reflexivity.
Defined.

Lemma token_handler_returns_only_after_store_witness :
  let w := scripted [token_body "abc123"] put_validates (Ret [failure_topic]) in
  exists evs args,
    snd (token_handler example_str w (mkEvent "test-sit") [])
      = (evs ++ [SsmPutParameter args])%list
    /\ Name args = "test-sit-edl-token"
    /\ truthy (Value args) = true.
Proof.
  intros w.
  destruct (token_handler_returns_only_after_store example_str w (mkEvent "test-sit") []
              (snd (token_handler example_str w (mkEvent "test-sit") [])) eq_refl)
    as (evs & args & E & Hn & Ht & _).
  exists evs, args. repeat split; assumption.
Defined.

Lemma token_handler_stores_whatever_is_returned_witness :
  let w := scripted [error_body "invalid_credentials"] put_accepts (Ret [failure_topic]) in
  exists rest,
    snd (token_handler example_str w (mkEvent "podaac-ops") []) =
      ([SsmGetParameter "generate-edl-username" true;
        SsmGetParameter "generate-edl-password" true;
        token_request "user" "secret" (fst (select_urls "podaac-ops"))]
         ++ [KmsDescribeKey "alias/aws/ssm";
             SsmPutParameter (mkPut "podaac-ops-edl-token" "Temporary EDL bearer token"
                                    (JBool false) "SecureString"
                                    "1234abcd-12ab-34cd-56ef-1234567890ab" true "Standard")]
         ++ rest)%list.
Proof.
  intros w.
  exact (token_handler_stores_whatever_is_returned example_str w (mkEvent "podaac-ops") []
           "user" "secret" (JBool false)
           [SsmGetParameter "generate-edl-username" true;
            SsmGetParameter "generate-edl-password" true;
            token_request "user" "secret" (fst (select_urls "podaac-ops"))]
           "1234abcd-12ab-34cd-56ef-1234567890ab"
           eq_refl eq_refl eq_refl eq_refl).
Defined.

Lemma token_handler_exit_status_witness :
  let w := scripted [error_body "invalid_credentials"] put_accepts (Ret [failure_topic]) in
  exists before after,
    snd (token_handler example_str w (mkEvent "podaac-ops") []) =
      (before ++ SnsListTopics :: after)%list.
Proof.
  intros w.
  destruct (token_handler_exit_status example_str w (mkEvent "podaac-ops") [] 1%Z)
    as (_ & before & after & E).
  - repeat split; intros; exact I.
  - reflexivity.
  - exists before, after. exact E.
Defined.

Lemma token_handler_issuance_exception_escapes_witness :
  let w := scripted [NotJson] put_accepts (Ret [failure_topic]) in
  token_handler example_str w (mkEvent "podaac-ops") []
  = (Raise JSONDecodeError,
     [SsmGetParameter "generate-edl-username" true;
      SsmGetParameter "generate-edl-password" true;
      token_request "user" "secret" (fst (select_urls "podaac-ops"))]).
Proof.
  intros w.
  exact (token_handler_issuance_exception_escapes example_str w (mkEvent "podaac-ops") []
           "user" "secret" JSONDecodeError eq_refl eq_refl eq_refl).
Defined.

Lemma token_handler_credential_failure_notified_witness :
  let w := without_credentials
             (scripted [token_body "abc123"] put_accepts (Ret [failure_topic])) in
  token_handler example_str w (mkEvent "podaac-ops") []
  = (Raise (SystemExit 1),
     [SsmGetParameter "generate-edl-username" true;
      SnsListTopics;
      SnsPublish failure_topic (compose_message w "ERROR" "ParameterNotFound" "")
                 "Generate Token Creator Lambda Failure"]).
Proof.
  intros w.
  destruct (token_handler_credential_failure_notified example_str w (mkEvent "podaac-ops") []
              "ParameterNotFound" eq_refl) as (E & _).
  rewrite E. reflexivity.
Defined.

Lemma token_handler_storage_failure_notified_witness :
  let w := scripted [token_body "abc123"] put_denied (Ret [failure_topic]) in
  fst (token_handler example_str w (mkEvent "podaac-ops") []) = Raise (SystemExit 1).
Proof.
  intros w.
  destruct (token_handler_storage_failure_notified example_str w (mkEvent "podaac-ops") []
              "user" "secret" (JStr "abc123")
              [SsmGetParameter "generate-edl-username" true;
               SsmGetParameter "generate-edl-password" true;
               token_request "user" "secret" (fst (select_urls "podaac-ops"))]
              "AccessDeniedException" eq_refl eq_refl eq_refl eq_refl) as (E & _).
  rewrite E. reflexivity.
Defined.

(** X19.  The message [publish_event] composes always carries the line of
    the error type followed by the line of the error description; it ends
    with the description line when there is no error data, and with the data
    line when there is. *)
Theorem compose_message_names_the_error :
  forall w ty descr data,
    let msg := compose_message w ty descr data in
    contains msg ("Error type: " ++ ty ++ "." ++ newline
                  ++ "Error description: " ++ descr ++ newline) = true
    /\ endswith msg (if String.eqb data ""
                     then "Error description: " ++ descr ++ newline
                     else "Error data: " ++ data) = true.
Proof.
  intros w ty descr data msg. unfold msg, compose_message.
  destruct (String.eqb data ""); cbn [negb]; split.
  - apply contains_spec.
    exists ("The Generate Token Creator has encountered an error." ++ newline
            ++ "Log file: " ++ format_env (getenv w "AWS_LAMBDA_LOG_GROUP_NAME") ++ "/"
            ++ format_env (getenv w "AWS_LAMBDA_LOG_STREAM_NAME") ++ "." ++ newline), "".
    rewrite !append_assoc. reflexivity.
  - apply endswith_spec.
    exists ("The Generate Token Creator has encountered an error." ++ newline
            ++ "Log file: " ++ format_env (getenv w "AWS_LAMBDA_LOG_GROUP_NAME") ++ "/"
            ++ format_env (getenv w "AWS_LAMBDA_LOG_STREAM_NAME") ++ "." ++ newline
            ++ "Error type: " ++ ty ++ "." ++ newline).
    rewrite !append_assoc. reflexivity.
  - apply contains_spec.
    exists ("The Generate Token Creator has encountered an error." ++ newline
            ++ "Log file: " ++ format_env (getenv w "AWS_LAMBDA_LOG_GROUP_NAME") ++ "/"
            ++ format_env (getenv w "AWS_LAMBDA_LOG_STREAM_NAME") ++ "." ++ newline),
           ("Error data: " ++ data).
    rewrite !append_assoc. reflexivity.
  - apply endswith_spec. eexists. reflexivity.
Qed.
